(** * Configuration and model-directory set-up of the sentence-similarity model

    A shallow embedding of [src/config.py] (class [Config]) and the
    properties of its option parser and of its two set-up methods,
    [inference] and [learn].

    Conventions of the embedding.
    - Python strings are [string]; [int] values are [Z]; [float] values are
      binary64 numbers ([PrimFloat.float]).
    - An instance of [Config] is its attribute dictionary, kept in insertion
      order as [vars(self)] enumerates it.
    - A method is a function of the state of the file system returning how
      the call ends (it returns, [sys.exit]s, raises or runs out of fuel),
      the state it leaves and the effects it performed, in order.
    - The operating system is a parameter, [System]: the state of the file
      system and the calls the file makes on it, with the laws the
      properties rely on.
    - What the file takes from the interpreter and from other modules is a
      parameter too, [Externals]: the builtins [int], [float] and
      [str.split], [json.load], [dataset.Vocab], [dataset.Embeddings],
      [dataset.check_dataset] and the seeding calls of TensorFlow and NumPy. *)

From Stdlib Require Import String Ascii List ZArith Lia Bool DecimalString.
From Corelib Require Import PrimFloat.
Import ListNotations.
Open Scope Z_scope.
Open Scope string_scope.
#[local] Set Warnings "-inexact-float".

(** ** Text *)

Definition nl : string := String (ascii_of_nat 10) EmptyString.

Definition snoc (s : string) (a : ascii) : string := s ++ String a EmptyString.

Definition is_empty (s : string) : bool :=
  match s with EmptyString => true | _ => false end.

Definition LF : ascii := ascii_of_nat 10.
Definition CR : ascii := ascii_of_nat 13.

(** [for line in f], for [f] opened in text mode: every line keeps its end,
    translated to LF; a last line without an end is a line too. *)
Fixpoint lines_from (cur : string) (s : string) : list string :=
  match s with
  | EmptyString => if is_empty cur then [] else [cur]
  | String a s' =>
      if Ascii.eqb a LF then snoc cur LF :: lines_from EmptyString s'
      else if Ascii.eqb a CR then
        match s' with
        | String b s'' =>
            if Ascii.eqb b LF then snoc cur LF :: lines_from EmptyString s''
            else snoc cur LF :: lines_from EmptyString s'
        | EmptyString => [snoc cur LF]
        end
      else lines_from (snoc cur a) s'
  end.

Definition readlines (content : string) : list string :=
  lines_from EmptyString content.

(** [str(n)] for an [int]. *)
Definition str_int (n : Z) : string := NilZero.string_of_int (Z.to_int n).

(** [s.startswith(p)]. *)
Fixpoint startswith (s p : string) {struct p} : bool :=
  match p with
  | EmptyString => true
  | String a p' =>
      match s with
      | String b s' => Ascii.eqb a b && startswith s' p'
      | EmptyString => false
      end
  end.

(** The help text, [self.usage], for the program name [prog]. *)
Definition usage_text (prog : string) : string :=
  "usage: " ++ prog ++ "
*  -mdir          FILE : directory to save/restore models

   -seq_size       INT : sentences larger than this number of src/tgt words are filtered out [50]
   -batch_size     INT : number of examples per batch [32]
   -seed           INT : seed for randomness [1234]
   -debug              : debug mode
   -h                  : this message

 [LEARNING OPTIONS]
*  -trn           FILE : training data
   -dev           FILE : validation data

   -src_tok       FILE : if provided, json tokenization options for onmt tokenization, points to vocabulary file
   -src_voc       FILE : vocabulary of src words (needed to initialize learning)
   -tgt_tok       FILE : if provided, json tokenization options for onmt tokenization, points to vocabulary file
   -tgt_voc       FILE : vocabulary of tgt words (needed to initialize learning)
   -src_emb       FILE : embeddings of src words (needed to initialize learning)
   -tgt_emb       FILE : embeddings of tgt words (needed to initialize learning)
   -src_emb_size   INT : size of src embeddings if -src_emb not used
   -tgt_emb_size   INT : size of tgt embeddings if -tgt_emb not used

   -src_lstm_size  INT : hidden units for src bi-lstm [256]
   -tgt_lstm_size  INT : hidden units for tgt bi-lstm [256]

   -lr           FLOAT : initial learning rate [1.0]
   -lr_decay     FLOAT : learning rate decay [0.9]
   -lr_method   STRING : GD method either: adam, adagrad, adadelta, sgd, rmsprop [adagrad]
   -aggr          TYPE : aggregation operation: sum, max, lse [lse]
   -r            FLOAT : r for lse [1.0]
   -dropout      FLOAT : dropout ratio [0.3]
   -mode        STRING : mode (alignment, sentence) [alignment]
   -max_sents      INT : Consider this number of sentences per batch (0 for all) [0]
   -n_epochs       INT : train for this number of epochs [1]
   -report_every   INT : report every this many batches [1000]

 [INFERENCE OPTIONS]
   -epoch          INT : epoch to use (mdir]/epoch[epoch], by default the latest one in mdir)
*  -tst           FILE : testing data
   -output        FILE : output file [- by default is STDOUT]
   -q                  : quiet mode, just output similarity score
   -show_matrix        : output formatted alignment matrix (mode must be alignment)
   -show_svg           : output alignment matrix using svg-like html format (mode must be alignment)
   -show_align         : output source/target alignment matrix (mode must be alignment)
   -show_last          : output source/target last vectors
   -show_aggr          : output source/target aggr vectors

+ Options marked with * must be set. The other ones have default values.
+ If -mdir exists in learning mode, learning continues after restoring the last model
+ Training data is shuffled at every epoch
+ -show_last, -show_aggr and -show_align can be used at the same time
".

(** ** Python values and the attribute dictionary *)

(** What the file takes from a vocabulary and from an embedding table. *)
Record Vocab := { Vocab_length : Z }.
Record Embeddings := { Embeddings_dim : Z }.

#[local] Unset Elimination Schemes.
Inductive Value : Type :=
| VNone
| VBool (b : bool)
| VInt (n : Z)
| VFloat (x : float)
| VStr (s : string)
| VList (items : list Value)
| VDict (items : list (string * Value))
| VVocab (v : Vocab)
| VEmbeddings (e : Embeddings)
| VStdout                       (* sys.stdout *)
| VFile (path : string).        (* open(path, "wb") *)
#[local] Set Elimination Schemes.

(** Truth value of a condition, [if v] / [if not v]. *)
Definition truthy (v : Value) : bool :=
  match v with
  | VNone => false
  | VBool b => b
  | VInt n => negb (n =? 0)%Z
  | VFloat x => negb (PrimFloat.eqb x 0)
  | VStr s => negb (is_empty s)
  | VList l => match l with [] => false | _ => true end
  | VDict d => match d with [] => false | _ => true end
  | VVocab _ | VEmbeddings _ | VStdout | VFile _ => true
  end.

Definition is_none (v : Value) : bool :=
  match v with VNone => true | _ => false end.

(** [v == s] for a string literal [s]. *)
Definition eq_str (v : Value) (s : string) : bool :=
  match v with VStr t => String.eqb t s | _ => false end.

(** [self] is [vars(self)]: attribute names and values, oldest first. *)
Definition Config := list (string * Value).

Fixpoint getattr (self : Config) (name : string) : option Value :=
  match self with
  | [] => None
  | (k, v) :: rest => if String.eqb k name then Some v else getattr rest name
  end.

(** [self.name = v]: a known attribute keeps its place, a new one goes last. *)
Fixpoint setattr (self : Config) (name : string) (v : Value) : Config :=
  match self with
  | [] => [(name, v)]
  | (k, w) :: rest =>
      if String.eqb k name then (k, v) :: rest
      else (k, w) :: setattr rest name v
  end.

Definition keys (self : Config) : list string := map fst self.

(** ** The operating system *)

(** The state of the file system, the calls the file makes on it, and what
    the properties below rely on: what lies below a directory lies in a
    directory that exists; a file written exists and reads back; writing a
    file, creating a directory and copying a file remove nothing. A call
    that gives [None] raises. *)
Class System : Type := {
  FS : Type;
  (** [os.path.exists(p)] *)
  exists_ : FS -> string -> bool;
  (** the text of the file [open(p)] opens *)
  read_file : FS -> string -> option string;
  (** [open(p, 'w')], [text] written, closed *)
  write_file : FS -> string -> string -> option FS;
  (** [os.makedirs(p)] *)
  make_dirs : FS -> string -> option FS;
  (** [shutil.copyfile(src, dst)] *)
  copy_file : FS -> string -> string -> option FS;
  exists_below : forall fs m x,
    is_empty m = false -> exists_ fs (m ++ "/" ++ x) = true -> exists_ fs m = true;
  write_file_exists : forall fs p text fs',
    write_file fs p text = Some fs' -> exists_ fs' p = true;
  write_file_read : forall fs p text fs',
    write_file fs p text = Some fs' -> read_file fs' p = Some text;
  write_file_keeps : forall fs p text fs' q,
    write_file fs p text = Some fs' -> exists_ fs q = true -> exists_ fs' q = true;
  make_dirs_exists : forall fs p fs',
    make_dirs fs p = Some fs' -> exists_ fs' p = true;
  make_dirs_keeps : forall fs p fs' q,
    make_dirs fs p = Some fs' -> exists_ fs q = true -> exists_ fs' q = true;
  copy_file_exists : forall fs src dst fs',
    copy_file fs src dst = Some fs' -> exists_ fs' dst = true;
  copy_file_keeps : forall fs src dst fs' q,
    copy_file fs src dst = Some fs' -> exists_ fs q = true -> exists_ fs' q = true
}.

(** ** Effects and outcomes *)

Inductive Event : Type :=
| EvStderr (text : string)              (* sys.stderr.write(text) *)
| EvPrint (text : string)               (* print(text) *)
| EvTfSeed (seed : Value)               (* tf.set_random_seed(seed) *)
| EvNpSeed (seed : Value)               (* np.random.seed(seed) *)
| EvCheckDataset (file : Value)         (* check_dataset(file) *)
| EvOpenRead (p : string)               (* open(p) / open(p, 'r') *)
| EvOpenWrite (p : string)              (* open(p, 'w') / open(p, "wb") *)
| EvMakedirs (p : string)               (* os.makedirs(p) *)
| EvCopyfile (src dst : Value)          (* copyfile(src, dst) *)
| EvVocab (file : Value)                (* Vocab(file) *)
| EvEmbeddings (file : Value) (voc : Vocab) (size : Value)
                                        (* Embeddings(file, voc, size) *)
| EvCall (method : string)              (* entry of a method of Config *)
| EvBranch (label : string).            (* entry of a commented block of learn *)

Inductive Exn : Type :=
| IndexError | ValueError | KeyError | TypeError | AttributeError | OSError
| ExternalError (callee : string).      (* the callee did not return *)

Inductive Outcome (A : Type) : Type :=
| Return (a : A)
| Exit (status : Z)                     (* sys.exit(status) *)
| Raise (e : Exn)                       (* an exception nobody catches *)
| OutOfFuel.
Arguments Return {A} a.
Arguments Exit {A} status.
Arguments Raise {A} e.
Arguments OutOfFuel {A}.

Section Runs.
Context {OS : System}.

Record Run (A : Type) : Type :=
  MkRun { outcome : Outcome A; final_fs : FS; events : list Event }.

Definition M (A : Type) : Type := FS -> Run A.

End Runs.
Arguments MkRun {OS A} outcome final_fs events.
Arguments outcome {OS A} r.
Arguments final_fs {OS A} r.
Arguments events {OS A} r.

Section Sequencing.
Context {OS : System}.

Definition ret {A} (a : A) : M A := fun fs => MkRun (Return a) fs [].

Definition bind {A B} (m : M A) (f : A -> M B) : M B :=
  fun fs =>
    let r := m fs in
    match outcome r with
    | Return a =>
        let r' := f a (final_fs r) in
        MkRun (outcome r') (final_fs r') (events r ++ events r')%list
    | Exit n => MkRun (Exit n) (final_fs r) (events r)
    | Raise e => MkRun (Raise e) (final_fs r) (events r)
    | OutOfFuel => MkRun OutOfFuel (final_fs r) (events r)
    end.

End Sequencing.

Declare Scope py_scope.
Delimit Scope py_scope with py.
Notation "x <- m ;; k" := (bind m (fun x => k))
  (at level 100, m at next level, right associativity) : py_scope.
Notation "' p <- m ;; k" := (bind m (fun x => let p := x in k))
  (at level 100, p pattern, m at next level, right associativity) : py_scope.
Notation "m ;; k" := (bind m (fun _ => k))
  (at level 100, right associativity) : py_scope.
Open Scope py_scope.

Section Calls.
Context {OS : System}.

Definition raise {A} (e : Exn) : M A := fun fs => MkRun (Raise e) fs [].
Definition sys_exit {A} (status : Z) : M A := fun fs => MkRun (Exit status) fs [].
Definition out_of_fuel {A} : M A := fun fs => MkRun OutOfFuel fs [].
Definition emit (e : Event) : M unit := fun fs => MkRun (Return tt) fs [e].
Definition stderr_write (text : string) : M unit := emit (EvStderr text).
Definition print (text : string) : M unit := emit (EvPrint text).

(** [None] raises [e]. *)
Definition or_raise {A} (e : Exn) (o : option A) : M A :=
  match o with Some a => ret a | None => raise e end.

(** [self.name] read: a missing attribute is an [AttributeError]. *)
Definition attr (self : Config) (name : string) : M Value :=
  or_raise AttributeError (getattr self name).

(** [str(v)] where the file formats a value; [other] renders floats,
    containers and library objects. *)
Definition str_with (other : Value -> string) (v : Value) : string :=
  match v with
  | VNone => "None"
  | VBool true => "True"
  | VBool false => "False"
  | VInt n => str_int n
  | VStr s => s
  | _ => other v
  end.

(** A path argument must be a string. *)
Definition as_path (v : Value) : M string :=
  match v with VStr s => ret s | _ => raise TypeError end.

(** [v + s] and [s + v] for a string literal or string expression [s]. *)
Definition add_str (v : Value) (s : string) : M string :=
  match v with VStr t => ret (t ++ s) | _ => raise TypeError end.
Definition str_add (s : string) (v : Value) : M string :=
  match v with VStr t => ret (s ++ t) | _ => raise TypeError end.

(** [v[key]]. *)
Definition getitem (v : Value) (key : string) : M Value :=
  match v with
  | VDict d => or_raise KeyError (getattr d key)
  | _ => raise TypeError
  end.

(** [os.path.exists(p)] for a path expression that evaluated to [p]. *)
Definition path_exists (p : string) : M bool :=
  fun fs => MkRun (Return (exists_ fs p)) fs [].

(** [open(p)] read to its end. *)
Definition open_read (p : string) : M string :=
  emit (EvOpenRead p) ;;
  fun fs => match read_file fs p with
            | Some s => MkRun (Return s) fs []
            | None => MkRun (Raise OSError) fs []
            end.

(** [open(p, 'w')], [content] written, closed. *)
Definition open_write (p : string) (content : string) : M unit :=
  emit (EvOpenWrite p) ;;
  fun fs => match write_file fs p content with
            | Some fs' => MkRun (Return tt) fs' []
            | None => MkRun (Raise OSError) fs []
            end.

(** [os.makedirs(p)]. *)
Definition makedirs (p : string) : M unit :=
  emit (EvMakedirs p) ;;
  fun fs => match make_dirs fs p with
            | Some fs' => MkRun (Return tt) fs' []
            | None => MkRun (Raise OSError) fs []
            end.

(** [copyfile(src, dst)]. *)
Definition copyfile (src dst : Value) : M unit :=
  emit (EvCopyfile src dst) ;;
  s <- as_path src ;;
  d <- as_path dst ;;
  fun fs => match copy_file fs s d with
            | Some fs' => MkRun (Return tt) fs' []
            | None => MkRun (Raise OSError) fs []
            end.

End Calls.

(** ** What the file imports *)

Class Externals {OS : System} : Type := {
  (** [int(s)]; [None] is [ValueError] *)
  py_int : string -> option Z;
  (** [float(s)]; [None] is [ValueError] *)
  py_float : string -> option float;
  (** [s.split()] *)
  py_split : string -> list string;
  (** [str(v)] for floats, containers and library objects *)
  str_other : Value -> string;
  (** [json.load] on the text of a file; [None] is [ValueError] *)
  json_load : string -> option Value;
  (** [dataset.Vocab(file)]; [None]: the call does not return *)
  Vocab_init : FS -> Value -> option Vocab;
  (** [dataset.Embeddings(file, voc, size)] *)
  Embeddings_init : FS -> Value -> Vocab -> Value -> option Embeddings;
  (** [dataset.check_dataset(file)] returns *)
  check_dataset_ok : FS -> Value -> bool;
  (** [tf.set_random_seed(seed)] and [np.random.seed(seed)] return *)
  tf_seed_ok : Value -> bool;
  np_seed_ok : Value -> bool
}.

(** ** The class [Config] *)

Section Config.
Context {OS : System} {E : Externals}.

Definition str (v : Value) : string := str_with str_other v.

Definition when (c : bool) (m : M unit) : M unit := if c then m else ret tt.

(** [len(argv)] as a condition. *)
Definition len (argv : list string) : bool :=
  match argv with [] => false | _ => true end.

(** [argv.pop(0)]. *)
Definition pop0 (argv : list string) : M (string * list string) :=
  match argv with
  | [] => raise IndexError
  | tok :: rest => ret (tok, rest)
  end.

Definition as_is (s : string) : M Value := ret (VStr s).
Definition to_int (s : string) : M Value :=
  n <- or_raise ValueError (py_int s) ;; ret (VInt n).
Definition to_float (s : string) : M Value :=
  x <- or_raise ValueError (py_float s) ;; ret (VFloat x).

(** [self.name = conv(argv.pop(0))]. *)
Definition store (self : Config) (name : string) (conv : string -> M Value)
    (argv : list string) : M (Config * list string) :=
  ' (v, argv) <- pop0 argv ;;
  x <- conv v ;;
  ret (setattr self name x, argv).

(** [self.name = True]. *)
Definition flag (self : Config) (name : string) (argv : list string)
    : M (Config * list string) :=
  ret (setattr self name (VBool true), argv).

(** The body of the loop of [parse], after [tok = argv.pop(0)]. *)
Definition parse_tok (self : Config) (tok : string) (argv : list string)
    : M (Config * list string) :=
  if (tok =? "-mdir") && len argv then store self "mdir" as_is argv
  else if (tok =? "-epoch") && len argv then store self "epoch" to_int argv
  else if (tok =? "-src_tok") && len argv then store self "src_tok" as_is argv
  else if (tok =? "-tgt_tok") && len argv then store self "tgt_tok" as_is argv
  else if (tok =? "-src_voc") && len argv then store self "src_voc" as_is argv
  else if (tok =? "-tgt_voc") && len argv then store self "tgt_voc" as_is argv
  else if (tok =? "-src_emb") && len argv then store self "src_emb" as_is argv
  else if (tok =? "-tgt_emb") && len argv then store self "tgt_emb" as_is argv
  else if (tok =? "-src_voc_size") && len argv then store self "src_voc_size" to_int argv
  else if (tok =? "-tgt_voc_size") && len argv then store self "tgt_voc_size" to_int argv
  else if (tok =? "-src_emb_size") && len argv then store self "src_emb_size" to_int argv
  else if (tok =? "-tgt_emb_size") && len argv then store self "tgt_emb_size" to_int argv
  else if (tok =? "-trn") && len argv then store self "trn" as_is argv
  else if (tok =? "-dev") && len argv then store self "dev" as_is argv
  else if (tok =? "-tst") && len argv then store self "tst" as_is argv
  else if (tok =? "-output") && len argv then store self "output" as_is argv
  else if (tok =? "-max_sents") && len argv then store self "max_sents" to_int argv
  else if (tok =? "-debug") then flag self "debug" argv
  else if (tok =? "-seed") && len argv then store self "seed" to_int argv
  else if (tok =? "-report_every") && len argv then store self "report_every" to_int argv
  else if (tok =? "-n_epochs") && len argv then store self "n_epochs" to_int argv
  else if (tok =? "-src_lstm_size") && len argv then store self "src_lstm_size" to_int argv
  else if (tok =? "-tgt_lstm_size") && len argv then store self "tgt_lstm_size" to_int argv
  else if (tok =? "-seq_size") && len argv then store self "seq_size" to_int argv
  else if (tok =? "-batch_size") && len argv then store self "batch_size" to_int argv
  else if (tok =? "-aggr") && len argv then store self "aggr" as_is argv
  else if (tok =? "-r") && len argv then store self "r" to_float argv
  else if (tok =? "-dropout") && len argv then store self "dropout" to_float argv
  else if (tok =? "-lr") && len argv then store self "lr" to_float argv
  else if (tok =? "-lr_decay") && len argv then store self "lr_decay" to_float argv
  else if (tok =? "-lr_method") && len argv then store self "lr_method" as_is argv
  else if (tok =? "-mode") && len argv then store self "mode" as_is argv
  else if (tok =? "-q") then flag self "quiet" argv
  else if (tok =? "-show_matrix") then flag self "show_matrix" argv
  else if (tok =? "-show_svg") then flag self "show_svg" argv
  else if (tok =? "-show_aggr") then flag self "show_aggr" argv
  else if (tok =? "-show_last") then flag self "show_last" argv
  else if (tok =? "-show_align") then flag self "show_align" argv
  else if (tok =? "-h") then
    usage <- attr self "usage" ;;
    stderr_write (str usage) ;;
    sys_exit 0
  else
    stderr_write ("error: unparsed " ++ tok ++ " option" ++ nl) ;;
    usage <- attr self "usage" ;;
    stderr_write (str usage) ;;
    sys_exit 1.

(** [while len(argv): tok = argv.pop(0); ...], at most [fuel] rounds. *)
Fixpoint parse_loop (fuel : nat) (self : Config) (argv : list string) : M Config :=
  match argv with
  | [] => ret self
  | tok :: argv =>
      match fuel with
      | O => out_of_fuel
      | S fuel =>
          ' (self, argv) <- parse_tok self tok argv ;;
          parse_loop fuel self argv
      end
  end.

Definition parse (self : Config) (argv : list string) : M Config :=
  parse_loop (List.length argv) self argv.

(** The attributes [__init__] assigns before it calls [parse]. *)
Definition init_attrs (usage : string) : Config :=
  [ ("usage", VStr usage);
    ("src_voc", VNone); ("src_tok", VNone); ("tok_src", VNone);
    ("tgt_voc", VNone); ("tgt_tok", VNone); ("tok_tgt", VNone);
    ("src_emb", VNone); ("tgt_emb", VNone);
    ("src_voc_size", VNone); ("tgt_voc_size", VNone);
    ("src_emb_size", VNone); ("tgt_emb_size", VNone);
    ("mdir", VNone); ("epoch", VNone);
    ("trn", VNone); ("dev", VNone); ("tst", VNone);
    ("output", VStr "-");
    ("emb_src", VNone); ("emb_tgt", VNone);
    ("src_lstm_size", VInt 256); ("tgt_lstm_size", VInt 256);
    ("aggr", VStr "lse"); ("r", VFloat 1); ("dropout", VFloat 0.3);
    ("lr", VFloat 1); ("lr_decay", VFloat 0.9); ("lr_method", VStr "adagrad");
    ("seq_size", VInt 50); ("batch_size", VInt 32); ("max_sents", VInt 0);
    ("n_epochs", VInt 1); ("last_epoch", VInt 0); ("seed", VInt 1234);
    ("report_every", VInt 1000); ("debug", VBool false);
    ("mode", VStr "alignment");
    ("quiet", VBool false); ("show_matrix", VBool false);
    ("show_svg", VBool false); ("show_last", VBool false);
    ("show_aggr", VBool false); ("show_align", VBool false) ].

(** [self.mdir + suffix]. *)
Definition mdir_plus (self : Config) (suffix : string) : M string :=
  mdir <- attr self "mdir" ;; add_str mdir suffix.

(** [for e in range(e, 0, -1): if os.path.exists(self.mdir +
    "/epoch{}.index".format(e)): self.name = e; break]. *)
Fixpoint for_epochs (e : nat) (self : Config) (name : string) : M Config :=
  match e with
  | O => ret self
  | S e' =>
      p <- mdir_plus self ("/epoch" ++ str_int (Z.of_nat e) ++ ".index") ;;
      found <- path_exists p ;;
      if found then ret (setattr self name (VInt (Z.of_nat e)))
      else for_epochs e' self name
  end.

(** [opt, val = line.split(); argv.append('-'+opt); argv.append(val)] for
    every line; [None] is the [ValueError] of a line that has not two fields. *)
Fixpoint topology_argv (lines : list string) : option (list string) :=
  match lines with
  | [] => Some []
  | line :: rest =>
      match py_split line with
      | [opt; val] =>
          option_map (fun argv => ("-" ++ opt) :: val :: argv) (topology_argv rest)
      | _ => None
      end
  end.

Definition read_topology (p : string) : M (list string) :=
  text <- open_read p ;;
  or_raise ValueError (topology_argv (readlines text)).

Definition check_dataset (file : Value) : M unit :=
  emit (EvCheckDataset file) ;;
  fun fs => if check_dataset_ok fs file then MkRun (Return tt) fs []
            else MkRun (Raise (ExternalError "check_dataset")) fs [].

Definition new_Vocab (file : Value) : M Value :=
  emit (EvVocab file) ;;
  fun fs => match Vocab_init fs file with
            | Some v => MkRun (Return (VVocab v)) fs []
            | None => MkRun (Raise (ExternalError "Vocab")) fs []
            end.

Definition new_Embeddings (file voc size : Value) : M Value :=
  match voc with
  | VVocab v =>
      emit (EvEmbeddings file v size) ;;
      fun fs => match Embeddings_init fs file v size with
                | Some e => MkRun (Return (VEmbeddings e)) fs []
                | None => MkRun (Raise (ExternalError "Embeddings")) fs []
                end
  | _ => raise (ExternalError "Embeddings")
  end.

(** [v.length] and [v.dim]. *)
Definition dot_length (v : Value) : M Value :=
  match v with VVocab x => ret (VInt (Vocab_length x)) | _ => raise AttributeError end.
Definition dot_dim (v : Value) : M Value :=
  match v with VEmbeddings x => ret (VInt (Embeddings_dim x)) | _ => raise AttributeError end.

(** [with open(p) as jsonfile: ... json.load(jsonfile)]. *)
Definition load_json (p : string) : M Value :=
  text <- open_read p ;; or_raise ValueError (json_load text).

Definition tf_set_random_seed (seed : Value) : M unit :=
  emit (EvTfSeed seed) ;;
  if tf_seed_ok seed then ret tt else raise (ExternalError "tf.set_random_seed").

Definition np_random_seed (seed : Value) : M unit :=
  emit (EvNpSeed seed) ;;
  if np_seed_ok seed then ret tt else raise (ExternalError "np.random.seed").

Definition inference (self : Config) : M Config :=
  emit (EvCall "inference") ;;
  let self := setattr self "dropout" (VFloat 0) in
  let self := setattr self "seq_size" (VInt 0) in
  epoch <- attr self "epoch" ;;
  self <- (if negb (truthy epoch) then
             self <- for_epochs 999 self "epoch" ;;
             epoch <- attr self "epoch" ;;
             when (negb (truthy epoch))
               (mdir <- attr self "mdir" ;;
                usage <- attr self "usage" ;;
                stderr_write ("error: Cannot find epoch in mdir '" ++ str mdir
                              ++ "'" ++ nl ++ str usage) ;;
                sys_exit 1) ;;
             ret self
           else ret self) ;;
  tst <- attr self "tst" ;;
  check_dataset tst ;;
  output <- attr self "output" ;;
  self <- (if eq_str output "-" then ret (setattr self "output" VStdout)
           else
             p <- as_path output ;;
             open_write p "" ;;
             ret (setattr self "output" (VFile p))) ;;
  mdir <- attr self "mdir" ;;
  epoch <- attr self "epoch" ;;
  found <- path_exists (str mdir ++ "/epoch" ++ str epoch ++ ".index") ;;
  when (negb found)
    (stderr_write ("error: -epoch file " ++ str mdir ++ "/epoch" ++ str epoch
                   ++ ".index cannot be find" ++ nl) ;;
     sys_exit 1) ;;
  topology <- mdir_plus self "/topology" ;;
  found <- path_exists topology ;;
  when (negb found)
    (stderr_write ("error: topology file: " ++ topology ++ " cannot be find" ++ nl) ;;
     sys_exit 1) ;;
  let src_voc := VStr "vocab_src" in
  let tgt_voc := VStr "vocab_tgt" in
  tokenization <- mdir_plus self "/tokenization_src.json" ;;
  found <- path_exists tokenization ;;
  ' (self, src_voc) <-
     (if found then
        j <- load_json tokenization ;;
        let self := setattr self "tok_src" j in
        tok_src <- attr self "tok_src" ;;
        src_voc <- getitem tok_src "vocabulary" ;;
        ret (self, src_voc)
      else ret (setattr self "tok_src" VNone, src_voc)) ;;
  prefix <- mdir_plus self "/" ;;
  vocab <- str_add prefix src_voc ;;
  found <- path_exists vocab ;;
  when (negb found)
    (stderr_write ("error: vocab src file: " ++ vocab ++ " cannot be find" ++ nl) ;;
     sys_exit 1) ;;
  tokenization <- mdir_plus self "/tokenization_tgt.json" ;;
  found <- path_exists tokenization ;;
  ' (self, tgt_voc) <-
     (if found then
        j <- load_json tokenization ;;
        let self := setattr self "tok_tgt" j in
        tok_tgt <- attr self "tok_tgt" ;;
        tgt_voc <- getitem tok_tgt "vocabulary" ;;
        ret (self, tgt_voc)
      else ret (setattr self "tok_tgt" VNone, tgt_voc)) ;;
  topology <- mdir_plus self "/topology" ;;
  argv <- read_topology topology ;;
  self <- parse self argv ;;
  prefix <- mdir_plus self "/" ;;
  vocab <- str_add prefix src_voc ;;
  voc_src <- new_Vocab (VStr vocab) ;;
  let self := setattr self "voc_src" voc_src in
  prefix <- mdir_plus self "/" ;;
  vocab <- str_add prefix tgt_voc ;;
  voc_tgt <- new_Vocab (VStr vocab) ;;
  let self := setattr self "voc_tgt" voc_tgt in
  ret self.

(** The condition on [opt] under which [learn] writes a line of the
    topology file. *)
Definition is_recorded (opt : string) : bool :=
  startswith opt "src" || startswith opt "tgt" || (opt =? "aggr") || (opt =? "mode").

(** What [learn] writes to the topology file: ["{} {}\n".format(opt, val)]
    for the attributes of [vars(self).items()] that pass the condition. *)
Definition topology_text (self : Config) : string :=
  String.concat ""
    (map (fun kv => fst kv ++ " " ++ str (snd kv) ++ nl)
         (filter (fun kv => is_recorded (fst kv)) self)).

Definition learn (self : Config) : M Config :=
  emit (EvCall "learn") ;;
  trn <- attr self "trn" ;;
  check_dataset trn ;;
  dev <- attr self "dev" ;;
  when (negb (is_none dev)) (check_dataset dev) ;;
  mdir <- attr self "mdir" ;;
  p <- as_path mdir ;;
  found <- path_exists p ;;
  if found then
    (* continuation *)
    emit (EvBranch "continuation") ;;
    let src_voc := VStr "vocab_src" in
    let tgt_voc := VStr "vocab_tgt" in
    topology <- mdir_plus self "/topology" ;;
    found <- path_exists topology ;;
    when (negb found)
      (stderr_write ("error: topology file: " ++ topology ++ " cannot be find" ++ nl) ;;
       sys_exit 1) ;;
    tokenization <- mdir_plus self "/tokenization_src.json" ;;
    found <- path_exists tokenization ;;
    ' (self, src_voc) <-
       (if found then
          j <- load_json tokenization ;;
          let self := setattr self "tok_src" j in
          tok_src <- attr self "tok_src" ;;
          src_voc <- getitem tok_src "vocabulary" ;;
          ret (self, src_voc)
        else ret (setattr self "src_tok" VNone, src_voc)) ;;
    prefix <- mdir_plus self "/" ;;
    vocab <- str_add prefix src_voc ;;
    found <- path_exists vocab ;;
    when (negb found)
      (stderr_write ("error: vocab src file: " ++ vocab ++ " cannot be find" ++ nl) ;;
       sys_exit 1) ;;
    tokenization <- mdir_plus self "/tokenization_tgt.json" ;;
    found <- path_exists tokenization ;;
    ' (self, tgt_voc) <-
       (if found then
          j <- load_json tokenization ;;
          let self := setattr self "tok_tgt" j in
          tok_tgt <- attr self "tok_tgt" ;;
          tgt_voc <- getitem tok_tgt "vocabulary" ;;
          ret (self, tgt_voc)
        else ret (setattr self "tgt_tok" VNone, tgt_voc)) ;;
    prefix <- mdir_plus self "/" ;;
    vocab <- str_add prefix tgt_voc ;;
    found <- path_exists vocab ;;
    when (negb found)
      (stderr_write ("error: vocab tgt file: " ++ vocab ++ " cannot be find" ++ nl) ;;
       sys_exit 1) ;;
    checkpoint <- mdir_plus self "/checkpoint" ;;
    found <- path_exists checkpoint ;;
    when (negb found)
      (mdir <- attr self "mdir" ;;
       stderr_write ("error: checkpoint file: " ++ checkpoint ++ " cannot be find"
                     ++ nl ++ "delete dir " ++ str mdir ++ " ???" ++ nl) ;;
       sys_exit 1) ;;
    topology <- mdir_plus self "/topology" ;;
    argv <- read_topology topology ;;
    self <- parse self argv ;;
    prefix <- mdir_plus self "/" ;;
    vocab <- str_add prefix src_voc ;;
    voc_src <- new_Vocab (VStr vocab) ;;
    let self := setattr self "voc_src" voc_src in
    prefix <- mdir_plus self "/" ;;
    vocab <- str_add prefix tgt_voc ;;
    voc_tgt <- new_Vocab (VStr vocab) ;;
    let self := setattr self "voc_tgt" voc_tgt in
    self <- for_epochs 999 self "last_epoch" ;;
    last_epoch <- attr self "last_epoch" ;;
    print ("learning continuation: last epoch is " ++ str last_epoch) ;;
    ret self
  else
    (* learning from scratch *)
    emit (EvBranch "learning from scratch") ;;
    src_tok <- attr self "src_tok" ;;
    self <- (if truthy src_tok then
               file <- as_path src_tok ;;
               found <- path_exists file ;;
               when (negb found)
                 (stderr_write ("error: cannot find -src_tok file: " ++ str src_tok ++ nl) ;;
                  sys_exit 1) ;;
               j <- load_json file ;;
               let self := setattr self "tok_src" j in
               src_voc <- attr self "src_voc" ;;
               if negb (truthy src_voc) then
                 tok_src <- attr self "tok_src" ;;
                 name <- getitem tok_src "vocabulary" ;;
                 ret (setattr self "src_voc" name)
               else ret self
             else ret (setattr self "tok_src" VNone)) ;;
    src_voc <- attr self "src_voc" ;;
    voc_src <- new_Vocab src_voc ;;
    let self := setattr self "voc_src" voc_src in
    tgt_tok <- attr self "tgt_tok" ;;
    self <- (if truthy tgt_tok then
               file <- as_path tgt_tok ;;
               found <- path_exists file ;;
               when (negb found)
                 (stderr_write ("error: cannot find -tgt_tok file: " ++ str tgt_tok ++ nl) ;;
                  sys_exit 1) ;;
               j <- load_json file ;;
               let self := setattr self "tok_tgt" j in
               tgt_voc <- attr self "tgt_voc" ;;
               if negb (truthy tgt_voc) then
                 tok_tgt <- attr self "tok_tgt" ;;
                 name <- getitem tok_tgt "vocabulary" ;;
                 ret (setattr self "tgt_voc" name)
               else ret self
             else ret (setattr self "tok_tgt" VNone)) ;;
    tgt_voc <- attr self "tgt_voc" ;;
    voc_tgt <- new_Vocab tgt_voc ;;
    let self := setattr self "voc_tgt" voc_tgt in
    voc_src <- attr self "voc_src" ;;
    n <- dot_length voc_src ;;
    let self := setattr self "src_voc_size" n in
    voc_tgt <- attr self "voc_tgt" ;;
    n <- dot_length voc_tgt ;;
    let self := setattr self "tgt_voc_size" n in
    mdir <- attr self "mdir" ;;
    p <- as_path mdir ;;
    found <- path_exists p ;;
    when (negb found) (makedirs p) ;;
    (* copy vocabularies *)
    src_tok <- attr self "src_tok" ;;
    (if truthy src_tok then
       src_voc <- attr self "src_voc" ;;
       prefix <- mdir_plus self "/" ;;
       tok_src <- attr self "tok_src" ;;
       name <- getitem tok_src "vocabulary" ;;
       dst <- str_add prefix name ;;
       copyfile src_voc (VStr dst) ;;
       src_tok <- attr self "src_tok" ;;
       dst <- mdir_plus self "/tokenization_src.json" ;;
       copyfile src_tok (VStr dst)
     else
       src_voc <- attr self "src_voc" ;;
       dst <- mdir_plus self "/vocab_src" ;;
       copyfile src_voc (VStr dst)) ;;
    tgt_tok <- attr self "tgt_tok" ;;
    (if truthy tgt_tok then
       tgt_voc <- attr self "tgt_voc" ;;
       prefix <- mdir_plus self "/" ;;
       tok_tgt <- attr self "tok_tgt" ;;
       name <- getitem tok_tgt "vocabulary" ;;
       dst <- str_add prefix name ;;
       copyfile tgt_voc (VStr dst) ;;
       tgt_tok <- attr self "tgt_tok" ;;
       dst <- mdir_plus self "/tokenization_tgt.json" ;;
       copyfile tgt_tok (VStr dst)
     else
       tgt_voc <- attr self "tgt_voc" ;;
       dst <- mdir_plus self "/vocab_tgt" ;;
       copyfile tgt_voc (VStr dst)) ;;
    (* read embeddings *)
    src_emb <- attr self "src_emb" ;;
    voc_src <- attr self "voc_src" ;;
    size <- attr self "src_emb_size" ;;
    emb_src <- new_Embeddings src_emb voc_src size ;;
    let self := setattr self "emb_src" emb_src in
    emb_src <- attr self "emb_src" ;;
    d <- dot_dim emb_src ;;
    let self := setattr self "src_emb_size" d in
    tgt_emb <- attr self "tgt_emb" ;;
    voc_tgt <- attr self "voc_tgt" ;;
    size <- attr self "tgt_emb_size" ;;
    emb_tgt <- new_Embeddings tgt_emb voc_tgt size ;;
    let self := setattr self "emb_tgt" emb_tgt in
    emb_tgt <- attr self "emb_tgt" ;;
    d <- dot_dim emb_tgt ;;
    let self := setattr self "tgt_emb_size" d in
    (* write topology file *)
    topology <- mdir_plus self "/topology" ;;
    open_write topology (topology_text self) ;;
    print "learning from scratch" ;;
    ret self.

(** [Config(argv)]: the outcome [Return self] is the constructed object. *)
Definition Config_init (argv : list string) : M Config :=
  ' (prog, argv) <- pop0 argv ;;
  let self := init_attrs (usage_text prog) in
  self <- parse self argv ;;
  seed <- attr self "seed" ;;
  tf_set_random_seed seed ;;
  seed <- attr self "seed" ;;
  np_random_seed seed ;;
  mdir <- attr self "mdir" ;;
  when (negb (truthy mdir))
    (usage <- attr self "usage" ;;
     stderr_write ("error: Missing -mdir option" ++ nl ++ str usage) ;;
     sys_exit 1) ;;
  tst <- attr self "tst" ;;
  self <- (if truthy tst then inference self else ret self) ;;
  trn <- attr self "trn" ;;
  self <- (if truthy trn then learn self else ret self) ;;
  ret self.

End Config.

(** ** Definitions used to state and prove the properties *)

(** The events of [r], after [ev]. *)
Definition prepend {OS : System} {A} (ev : list Event) (r : Run A) : Run A :=
  MkRun (outcome r) (final_fs r) (ev ++ events r)%list.

(** [m] ends at [fs'] with [ev] performed, returning [a]. *)
Definition returns {OS : System} {A} (m : M A) (fs : FS) (a : A) (fs' : FS) (ev : list Event) : Prop :=
  m fs = MkRun (Return a) fs' ev.

(** Every event [m] performs satisfies [P], however [m] ends. *)
Definition emits_only {OS : System} {A} (P : Event -> Prop) (m : M A) : Prop :=
  forall fs, Forall P (events (m fs)).

(** The options of [parse] as a table: what a token stands for. *)
Inductive Conv : Type := ToStr | ToInt | ToFloat.

Inductive Kind : Type :=
| Valued (name : string) (conv : Conv)   (* -opt VALUE, kept in self.name *)
| Flag (name : string)                   (* -opt, sets self.name *)
| Help                                   (* -h *)
| Unknown.

Definition option_kind (tok : string) : Kind :=
  if tok =? "-mdir" then Valued "mdir" ToStr
  else if tok =? "-epoch" then Valued "epoch" ToInt
  else if tok =? "-src_tok" then Valued "src_tok" ToStr
  else if tok =? "-tgt_tok" then Valued "tgt_tok" ToStr
  else if tok =? "-src_voc" then Valued "src_voc" ToStr
  else if tok =? "-tgt_voc" then Valued "tgt_voc" ToStr
  else if tok =? "-src_emb" then Valued "src_emb" ToStr
  else if tok =? "-tgt_emb" then Valued "tgt_emb" ToStr
  else if tok =? "-src_voc_size" then Valued "src_voc_size" ToInt
  else if tok =? "-tgt_voc_size" then Valued "tgt_voc_size" ToInt
  else if tok =? "-src_emb_size" then Valued "src_emb_size" ToInt
  else if tok =? "-tgt_emb_size" then Valued "tgt_emb_size" ToInt
  else if tok =? "-trn" then Valued "trn" ToStr
  else if tok =? "-dev" then Valued "dev" ToStr
  else if tok =? "-tst" then Valued "tst" ToStr
  else if tok =? "-output" then Valued "output" ToStr
  else if tok =? "-max_sents" then Valued "max_sents" ToInt
  else if tok =? "-debug" then Flag "debug"
  else if tok =? "-seed" then Valued "seed" ToInt
  else if tok =? "-report_every" then Valued "report_every" ToInt
  else if tok =? "-n_epochs" then Valued "n_epochs" ToInt
  else if tok =? "-src_lstm_size" then Valued "src_lstm_size" ToInt
  else if tok =? "-tgt_lstm_size" then Valued "tgt_lstm_size" ToInt
  else if tok =? "-seq_size" then Valued "seq_size" ToInt
  else if tok =? "-batch_size" then Valued "batch_size" ToInt
  else if tok =? "-aggr" then Valued "aggr" ToStr
  else if tok =? "-r" then Valued "r" ToFloat
  else if tok =? "-dropout" then Valued "dropout" ToFloat
  else if tok =? "-lr" then Valued "lr" ToFloat
  else if tok =? "-lr_decay" then Valued "lr_decay" ToFloat
  else if tok =? "-lr_method" then Valued "lr_method" ToStr
  else if tok =? "-mode" then Valued "mode" ToStr
  else if tok =? "-q" then Flag "quiet"
  else if tok =? "-show_matrix" then Flag "show_matrix"
  else if tok =? "-show_svg" then Flag "show_svg"
  else if tok =? "-show_aggr" then Flag "show_aggr"
  else if tok =? "-show_last" then Flag "show_last"
  else if tok =? "-show_align" then Flag "show_align"
  else if tok =? "-h" then Help
  else Unknown.

(** The option takes a value. *)
Definition takes_value (tok : string) : bool :=
  match option_kind tok with Valued _ _ => true | _ => false end.

(** The types an attribute set by [__init__] or [parse] can hold. *)
Inductive Ty : Type := TStr | TOptStr | TInt | TOptInt | TFloat | TBool.

Definition has_ty (t : Ty) (v : Value) : bool :=
  match t, v with
  | TStr, VStr _ => true
  | TOptStr, (VNone | VStr _) => true
  | TInt, VInt _ => true
  | TOptInt, (VNone | VInt _) => true
  | TFloat, VFloat _ => true
  | TBool, VBool _ => true
  | _, _ => false
  end.

Definition parsed_types : list (string * Ty) :=
  [ ("usage", TStr);
    ("src_voc", TOptStr); ("src_tok", TOptStr);
    ("tgt_voc", TOptStr); ("tgt_tok", TOptStr);
    ("src_emb", TOptStr); ("tgt_emb", TOptStr);
    ("src_voc_size", TOptInt); ("tgt_voc_size", TOptInt);
    ("src_emb_size", TOptInt); ("tgt_emb_size", TOptInt);
    ("mdir", TOptStr); ("epoch", TOptInt);
    ("trn", TOptStr); ("dev", TOptStr); ("tst", TOptStr);
    ("output", TStr);
    ("src_lstm_size", TInt); ("tgt_lstm_size", TInt);
    ("aggr", TStr); ("r", TFloat); ("dropout", TFloat);
    ("lr", TFloat); ("lr_decay", TFloat); ("lr_method", TStr);
    ("seq_size", TInt); ("batch_size", TInt); ("max_sents", TInt);
    ("n_epochs", TInt); ("last_epoch", TInt); ("seed", TInt);
    ("report_every", TInt); ("debug", TBool);
    ("mode", TStr);
    ("quiet", TBool); ("show_matrix", TBool);
    ("show_svg", TBool); ("show_last", TBool);
    ("show_aggr", TBool); ("show_align", TBool) ].

Fixpoint ty_of_in (types : list (string * Ty)) (name : string) : option Ty :=
  match types with
  | [] => None
  | (k, t) :: rest => if k =? name then Some t else ty_of_in rest name
  end.

Definition ty_of (name : string) : option Ty := ty_of_in parsed_types name.

(** Every attribute of the table is set, to a value of its type. *)
Definition well_typed (self : Config) : Prop :=
  forall name t, ty_of name = Some t ->
  exists v, getattr self name = Some v /\ has_ty t v = true.

(** The attribute names [learn] writes to the topology file. *)
Definition recorded_options : list string :=
  [ "src_voc"; "src_tok"; "tgt_voc"; "tgt_tok"; "src_emb"; "tgt_emb";
    "src_voc_size"; "tgt_voc_size"; "src_emb_size"; "tgt_emb_size";
    "src_lstm_size"; "tgt_lstm_size"; "aggr"; "mode" ].

Definition mem (s : string) (l : list string) : bool := existsb (String.eqb s) l.

Definition is_copyfile (e : Event) : bool :=
  match e with EvCopyfile _ _ => true | _ => false end.

Section Devices.
Context {OS : System} {E : Externals}.

(** The paths [mdir/epoch{e}.index]. *)
Definition epoch_index (mdir : string) (e : Z) : string :=
  mdir ++ "/epoch" ++ str_int e ++ ".index".

(** [e] is the largest number from 1 to 999 whose index file exists. *)
Definition latest_epoch (fs : FS) (mdir : string) (e : Z) : Prop :=
  1 <= e <= 999 /\ exists_ fs (epoch_index mdir e) = true /\
  forall e', e < e' <= 999 -> exists_ fs (epoch_index mdir e') = false.

Definition no_epoch (fs : FS) (mdir : string) : Prop :=
  forall e, 1 <= e <= 999 -> exists_ fs (epoch_index mdir e) = false.

(** The tokenizer option file of a model directory, for [side] src or tgt. *)
Definition tokenization (mdir side : string) : string :=
  mdir ++ "/tokenization_" ++ side ++ ".json".

(** The name of the vocabulary file of a model directory: the one its
    tokenizer option file gives, or vocab_src / vocab_tgt without one. *)
Definition resolved_vocab (fs : FS) (mdir side : string) : option string :=
  if exists_ fs (tokenization mdir side) then
    match read_file fs (tokenization mdir side) with
    | Some text =>
        match json_load text with
        | Some (VDict d) =>
            match getattr d "vocabulary" with
            | Some (VStr name) => Some name
            | _ => None
            end
        | _ => None
        end
    | None => None
    end
  else Some ("vocab_" ++ side).

Definition tokenization_reads (fs : FS) (mdir side : string) : list Event :=
  if exists_ fs (tokenization mdir side) then [EvOpenRead (tokenization mdir side)]
  else [].

Definition convert (c : Conv) (v : string) : option Value :=
  match c with
  | ToStr => Some (VStr v)
  | ToInt => option_map VInt (py_int v)
  | ToFloat => option_map VFloat (py_float v)
  end.

(** The last branch of [parse]. *)
Definition unparsed {A} (self : Config) (tok : string) : M A :=
  stderr_write ("error: unparsed " ++ tok ++ " option" ++ nl) ;;
  usage <- attr self "usage" ;;
  stderr_write (str usage) ;;
  sys_exit 1.

(** One round of [parse], from the table. *)
Definition parse_tok_table (self : Config) (tok : string) (argv : list string)
    : M (Config * list string) :=
  match option_kind tok with
  | Valued name conv =>
      match argv with
      | v :: rest =>
          match convert conv v with
          | Some x => ret (setattr self name x, rest)
          | None => raise ValueError
          end
      | [] => unparsed self tok
      end
  | Flag name => ret (setattr self name (VBool true), argv)
  | Help => usage <- attr self "usage" ;; stderr_write (str usage) ;; sys_exit 0
  | Unknown => unparsed self tok
  end.

(** [parse] takes [self] to [self'] over all of [argv]. *)
Inductive Parses : Config -> list string -> Config -> Prop :=
| Parses_nil self : Parses self [] self
| Parses_valued self tok name conv v x rest self' :
    option_kind tok = Valued name conv ->
    convert conv v = Some x ->
    Parses (setattr self name x) rest self' ->
    Parses self (tok :: v :: rest) self'
| Parses_flag self tok name rest self' :
    option_kind tok = Flag name ->
    Parses (setattr self name (VBool true)) rest self' ->
    Parses self (tok :: rest) self'.

(** The assignments [parse] makes going through [argv], in order. *)
Fixpoint assignments (argv : list string) : list (string * Value) :=
  match argv with
  | [] => []
  | tok :: rest =>
      match option_kind tok with
      | Valued name conv =>
          match rest with
          | v :: rest' =>
              match convert conv v with
              | Some x => (name, x) :: assignments rest'
              | None => []
              end
          | [] => []
          end
      | Flag name => (name, VBool true) :: assignments rest
      | Help | Unknown => []
      end
  end.

(** The attributes [parse] assigns going through [argv]. *)
Definition assigned (argv : list string) : list string := map fst (assignments argv).

Definition assign_all (self : Config) (l : list (string * Value)) : Config :=
  fold_left (fun c kv => setattr c (fst kv) (snd kv)) l self.

(** The value the last assignment to [name] gives. *)
Fixpoint last_assigned (l : list (string * Value)) (name : string) : option Value :=
  match l with
  | [] => None
  | (k, v) :: rest =>
      match last_assigned rest name with
      | Some w => Some w
      | None => if k =? name then Some v else None
      end
  end.

(** The recorded attribute names of [self], in the order of [vars(self)]. *)
Definition recorded_keys (self : Config) : list string :=
  filter is_recorded (keys self).

(** The attributes learning from scratch assigns. *)
Definition scratch_assigned : list string :=
  [ "tok_src"; "src_voc"; "voc_src"; "tok_tgt"; "tgt_voc"; "voc_tgt";
    "src_voc_size"; "tgt_voc_size"; "emb_src"; "src_emb_size";
    "emb_tgt"; "tgt_emb_size" ].

Definition is_read (e : Event) : bool :=
  match e with EvOpenRead _ | EvVocab _ => true | _ => false end.

(** The events of [learn] up to the choice between its two blocks. *)
Definition learn_checks (trn dev : Value) : list Event :=
  [EvCall "learn"; EvCheckDataset trn]
  ++ (if is_none dev then [] else [EvCheckDataset dev]).

(** What the copies of one side are: the vocabulary under the name the
    tokenizer options give and the tokenizer options, or the vocabulary
    alone under its default name. *)
Definition side_copies (self' : Config) (m side : string) (copies : list Event) : Prop :=
  exists tok voc,
    getattr self' (side ++ "_tok") = Some tok /\
    getattr self' (side ++ "_voc") = Some (VStr voc) /\
    if truthy tok then
      exists file d name,
        tok = VStr file /\
        getattr self' ("tok_" ++ side) = Some (VDict d) /\
        getattr d "vocabulary" = Some (VStr name) /\
        copies = [ EvCopyfile (VStr voc) (VStr (m ++ "/" ++ name));
                   EvCopyfile (VStr file) (VStr (tokenization m side)) ]
    else
      copies = [ EvCopyfile (VStr voc) (VStr (m ++ "/vocab_" ++ side)) ].

(** [learn] returned through its continuation block. *)
Definition continued (self : Config) (fs : FS) (m : string) (checks : list Event)
    (self' : Config) (fs' : FS) (ev : list Event) : Prop :=
  fs' = fs /\
  exists_ fs (m ++ "/topology") = true /\
  exists_ fs (m ++ "/checkpoint") = true /\
  exists sv tv self0 text argv self1 v1 v2 m1 last,
    resolved_vocab fs m "src" = Some sv /\ exists_ fs (m ++ "/" ++ sv) = true /\
    resolved_vocab fs m "tgt" = Some tv /\ exists_ fs (m ++ "/" ++ tv) = true /\
    (forall k, ~ In k ["tok_src"; "src_tok"; "tok_tgt"; "tgt_tok"] ->
               getattr self0 k = getattr self k) /\
    read_file fs (m ++ "/topology") = Some text /\
    topology_argv (readlines text) = Some argv /\
    Parses self0 argv self1 /\
    getattr self1 "mdir" = Some (VStr m1) /\
    ((exists e, latest_epoch fs m1 e /\
        self' = setattr (setattr (setattr self1 "voc_src" v1) "voc_tgt" v2)
                        "last_epoch" (VInt e))
     \/ (no_epoch fs m1 /\ self' = setattr (setattr self1 "voc_src" v1) "voc_tgt" v2)) /\
    getattr self' "last_epoch" = Some last /\
    ev = (checks ++ [EvBranch "continuation"]
          ++ tokenization_reads fs m "src" ++ tokenization_reads fs m "tgt"
          ++ [ EvOpenRead (m ++ "/topology");
               EvVocab (VStr (m1 ++ "/" ++ sv)); EvVocab (VStr (m1 ++ "/" ++ tv));
               EvPrint ("learning continuation: last epoch is " ++ str last) ])%list.

(** [learn] returned through its block for learning from scratch. *)
Definition started (self : Config) (fs : FS) (m : string) (checks : list Event)
    (self' : Config) (fs' : FS) (ev : list Event) : Prop :=
  (forall k, ~ In k scratch_assigned -> getattr self' k = getattr self k) /\
  ((forall k, In k scratch_assigned -> is_recorded k = true -> getattr self k <> None) ->
   recorded_keys self' = recorded_keys self) /\
  (NoDup (keys self) -> NoDup (keys self')) /\
  (exists vs vt es et,
     getattr self' "voc_src" = Some (VVocab vs) /\
     getattr self' "src_voc_size" = Some (VInt (Vocab_length vs)) /\
     getattr self' "voc_tgt" = Some (VVocab vt) /\
     getattr self' "tgt_voc_size" = Some (VInt (Vocab_length vt)) /\
     getattr self' "emb_src" = Some (VEmbeddings es) /\
     getattr self' "src_emb_size" = Some (VInt (Embeddings_dim es)) /\
     getattr self' "emb_tgt" = Some (VEmbeddings et) /\
     getattr self' "tgt_emb_size" = Some (VInt (Embeddings_dim et))) /\
  read_file fs' (m ++ "/topology") = Some (topology_text self') /\
  exists_ fs' m = true /\
  (forall p, exists_ fs p = true -> exists_ fs' p = true) /\
  exists reads src_copies tgt_copies embeddings,
    Forall (fun e => is_read e = true) reads /\
    side_copies self' m "src" src_copies /\
    side_copies self' m "tgt" tgt_copies /\
    Forall (fun e => match e with EvCopyfile _ (VStr dst) => exists_ fs' dst = true
                                | _ => True end) (src_copies ++ tgt_copies) /\
    Forall (fun e => match e with EvEmbeddings _ _ _ => True | _ => False end) embeddings /\
    ev = (checks ++ [EvBranch "learning from scratch"] ++ reads
          ++ [EvMakedirs m] ++ src_copies ++ tgt_copies ++ embeddings
          ++ [EvOpenWrite (m ++ "/topology"); EvPrint "learning from scratch"])%list.

End Devices.

(** * An operating system and imports for examples *)

(** ** Text *)

Lemma startswith_app p s : startswith (p ++ s) p = true.
Proof. induction p as [|a p IH]; simpl; [reflexivity|]. now rewrite Ascii.eqb_refl. Qed.

Lemma append_assoc (a b c : string) : (a ++ b) ++ c = a ++ (b ++ c).
Proof. induction a; simpl; congruence. Qed.

Lemma startswith_trans p q s :
  startswith q p = true -> startswith s q = true -> startswith s p = true.
Proof.
  revert q s. induction p as [|a p IH]; intros q s; simpl; [reflexivity|].
  destruct q as [|b q]; [discriminate|]. intros Hp. apply andb_prop in Hp.
  destruct Hp as [Hab Hp]. apply Ascii.eqb_eq in Hab. subst b. simpl.
  destruct s as [|c s]; [discriminate|]. intros Hq. apply andb_prop in Hq.
  destruct Hq as [Hac Hq]. rewrite Hac. simpl. eapply IH; eauto.
Qed.

Lemma startswith_longer p : startswith p (p ++ "/") = false.
Proof. induction p as [|a p IH]; [reflexivity|]. simpl. now rewrite Ascii.eqb_refl. Qed.

Lemma is_empty_app p s : is_empty p = false -> is_empty (p ++ s) = false.
Proof. destruct p; simpl; congruence. Qed.

Module Example.

(** ** A file system as a list of paths

    A path exists when it is listed or when a listed path lies below it;
    paths are compared as written. *)

Inductive Node : Type := File (content : string) | Dir.

(** Paths and what they name; a path listed earlier hides the same path
    listed later. *)
Definition Files := list (string * Node).

Fixpoint lookup (fs : Files) (p : string) : option Node :=
  match fs with
  | [] => None
  | (q, n) :: rest => if String.eqb q p then Some n else lookup rest p
  end.

(** Some listed path lies below [p]. *)
Definition has_entries (fs : Files) (p : string) : bool :=
  existsb (fun e => startswith (fst e) (p ++ "/")) fs.

Definition fs_exists (fs : Files) (p : string) : bool :=
  negb (is_empty p) &&
  (match lookup fs p with Some _ => true | None => false end || has_entries fs p).

Definition is_dir (fs : Files) (p : string) : bool :=
  match lookup fs p with Some Dir => true | _ => has_entries fs p end.

(** The directory part of a path: what precedes its last slash. *)
Fixpoint dirname (p : string) : string :=
  match p with
  | EmptyString => EmptyString
  | String a p' =>
      if existsb (Ascii.eqb "/"%char) (list_ascii_of_string p')
      then String a (dirname p')
      else EmptyString
  end.

(** A file can be created at [p]: [p] is no directory and the directory it
    names exists (the current directory and the root always do). *)
Definition creatable (fs : Files) (p : string) : bool :=
  negb (is_empty p) && negb (is_dir fs p) &&
  (is_empty (dirname p) || fs_exists fs (dirname p)).

Definition fs_read (fs : Files) (p : string) : option string :=
  if is_dir fs p then None
  else match lookup fs p with Some (File s) => Some s | _ => None end.

Definition fs_write (fs : Files) (p : string) (content : string) : option Files :=
  if creatable fs p then Some ((p, File content) :: fs) else None.

Definition fs_makedirs (fs : Files) (p : string) : option Files :=
  if is_empty p || fs_exists fs p then None else Some ((p, Dir) :: fs).

Definition fs_copy (fs : Files) (src dst : string) : option Files :=
  if String.eqb src dst then None
  else match fs_read fs src with
       | Some content => fs_write fs dst content
       | None => None
       end.

Lemma lookup_has_entries fs m y :
  startswith y (m ++ "/") = true -> lookup fs y <> None -> has_entries fs m = true.
Proof.
  intros Hy. unfold has_entries. induction fs as [|[q n] rest IH]; cbn [lookup existsb fst].
  - congruence.
  - destruct (String.eqb_spec q y) as [->|Hq]; intros H.
    + now rewrite Hy.
    + rewrite (IH H). apply orb_true_r.
Qed.

Lemma lookup_Some_has_entries fs m x :
  lookup fs (m ++ "/" ++ x) <> None -> has_entries fs m = true.
Proof.
  apply lookup_has_entries. rewrite <- append_assoc. apply startswith_app.
Qed.

Lemma has_entries_below fs m x :
  has_entries fs (m ++ "/" ++ x) = true -> has_entries fs m = true.
Proof.
  unfold has_entries. rewrite !existsb_exists. intros ([q n] & Hin & Hp).
  exists (q, n). split; [assumption|]. cbn [fst] in *.
  eapply startswith_trans; [|exact Hp].
  replace ((m ++ "/" ++ x) ++ "/") with ((m ++ "/") ++ (x ++ "/"))
    by (now rewrite !append_assoc).
  apply startswith_app.
Qed.

(** What exists below [m] lies in the directory [m]. *)
Lemma fs_exists_below fs m x :
  is_empty m = false -> fs_exists fs (m ++ "/" ++ x) = true -> fs_exists fs m = true.
Proof.
  unfold fs_exists. intros Hm H. rewrite Hm. simpl.
  apply andb_prop in H. destruct H as [_ H]. apply orb_prop in H.
  destruct H as [H|H].
  - rewrite (lookup_Some_has_entries fs m x); [apply orb_true_r|].
    destruct (lookup fs (m ++ "/" ++ x)); congruence.
  - rewrite (has_entries_below _ _ _ H). apply orb_true_r.
Qed.

(** A new entry removes nothing. *)
Lemma fs_exists_cons fs q n p : fs_exists fs p = true -> fs_exists ((q, n) :: fs) p = true.
Proof.
  unfold fs_exists, has_entries. intros H. apply andb_prop in H. destruct H as [-> H].
  simpl. destruct (String.eqb q p); [reflexivity|].
  apply orb_prop in H. destruct H as [H|H].
  - destruct (lookup fs p); [reflexivity|discriminate].
  - rewrite H. rewrite !orb_true_r. reflexivity.
Qed.

Lemma fs_exists_cons_same fs p n : is_empty p = false -> fs_exists ((p, n) :: fs) p = true.
Proof. unfold fs_exists. intros ->. simpl. now rewrite String.eqb_refl. Qed.

Lemma fs_write_inv fs p content fs' :
  fs_write fs p content = Some fs' ->
  fs' = (p, File content) :: fs /\ creatable fs p = true.
Proof. unfold fs_write. destruct (creatable fs p); [|discriminate]. intros H; inversion H; auto. Qed.

Lemma creatable_nonempty fs p : creatable fs p = true -> is_empty p = false.
Proof. unfold creatable. destruct (is_empty p); simpl; congruence. Qed.

Lemma is_dir_cons_file fs p content :
  is_dir fs p = false -> is_dir ((p, File content) :: fs) p = false.
Proof.
  unfold is_dir, has_entries. simpl. rewrite String.eqb_refl.
  rewrite startswith_longer. simpl.
  intros H. destruct (lookup fs p) as [[|]|]; try discriminate; assumption.
Qed.

(** A file just written reads back. *)
Lemma fs_write_read fs p content fs' :
  fs_write fs p content = Some fs' -> fs_read fs' p = Some content.
Proof.
  intros H. apply fs_write_inv in H. destruct H as [-> Hc].
  unfold fs_read. rewrite is_dir_cons_file.
  - simpl. now rewrite String.eqb_refl.
  - unfold creatable in Hc. destruct (is_dir fs p); [|reflexivity].
    rewrite andb_false_r in Hc. discriminate.
Qed.

Lemma fs_write_exists fs p content fs' :
  fs_write fs p content = Some fs' -> fs_exists fs' p = true.
Proof.
  intros H. apply fs_write_inv in H. destruct H as [-> Hc].
  apply fs_exists_cons_same. eapply creatable_nonempty; eauto.
Qed.

Lemma fs_write_keeps fs p content fs' q :
  fs_write fs p content = Some fs' -> fs_exists fs q = true -> fs_exists fs' q = true.
Proof.
  intros H. apply fs_write_inv in H. destruct H as [-> _]. apply fs_exists_cons.
Qed.

Lemma fs_makedirs_exists fs p fs' : fs_makedirs fs p = Some fs' -> fs_exists fs' p = true.
Proof.
  unfold fs_makedirs. destruct (is_empty p) eqn:Hp; simpl; [discriminate|].
  destruct (fs_exists fs p); simpl; [discriminate|]. intros H; inversion H.
  now apply fs_exists_cons_same.
Qed.

Lemma fs_makedirs_keeps fs p fs' q :
  fs_makedirs fs p = Some fs' -> fs_exists fs q = true -> fs_exists fs' q = true.
Proof.
  unfold fs_makedirs. destruct (is_empty p || fs_exists fs p); [discriminate|].
  intros H; inversion H. apply fs_exists_cons.
Qed.

Lemma fs_copy_exists fs src dst fs' : fs_copy fs src dst = Some fs' -> fs_exists fs' dst = true.
Proof.
  unfold fs_copy. destruct (src =? dst); [discriminate|].
  destruct (fs_read fs src); [|discriminate]. apply fs_write_exists.
Qed.

Lemma fs_copy_keeps fs src dst fs' q :
  fs_copy fs src dst = Some fs' -> fs_exists fs q = true -> fs_exists fs' q = true.
Proof.
  unfold fs_copy. destruct (src =? dst); [discriminate|].
  destruct (fs_read fs src); [|discriminate]. apply fs_write_keeps.
Qed.

Definition system : System := {|
  FS := Files;
  exists_ := fs_exists;
  read_file := fs_read;
  write_file := fs_write;
  make_dirs := fs_makedirs;
  copy_file := fs_copy;
  exists_below := fs_exists_below;
  write_file_exists := fs_write_exists;
  write_file_read := fs_write_read;
  write_file_keeps := fun fs p text fs' q => fs_write_keeps fs p text fs' q;
  make_dirs_exists := fs_makedirs_exists;
  make_dirs_keeps := fs_makedirs_keeps;
  copy_file_exists := fs_copy_exists;
  copy_file_keeps := fs_copy_keeps
|}.

(** ** The builtins on ASCII text *)

(** White space of [str.split()] within the ASCII range. *)
Definition is_space (a : ascii) : bool :=
  let n := nat_of_ascii a in
  ((9 <=? n) && (n <=? 13) || (28 <=? n) && (n <=? 32))%nat.

(** [cur] is the field being read. *)
Fixpoint split_from (cur : string) (s : string) : list string :=
  match s with
  | EmptyString => if is_empty cur then [] else [cur]
  | String a s' =>
      if is_space a
      then (if is_empty cur then split_from EmptyString s'
            else cur :: split_from EmptyString s')
      else split_from (snoc cur a) s'
  end.

(** [line.split()]: the maximal runs of characters that are not white space. *)
Definition split (s : string) : list string := split_from EmptyString s.

Definition is_digit (a : ascii) : bool :=
  let n := nat_of_ascii a in ((48 <=? n) && (n <=? 57))%nat.

Definition digit_value (a : ascii) : Z := Z.of_nat (nat_of_ascii a) - 48.

(** Decimal digits, single underscores allowed between two digits. *)
Fixpoint digits_from (acc : Z) (after_digit : bool) (s : string) : option Z :=
  match s with
  | EmptyString => if after_digit then Some acc else None
  | String a s' =>
      if is_digit a then digits_from (10 * acc + digit_value a) true s'
      else if Ascii.eqb a "_"%char && after_digit then digits_from acc false s'
      else None
  end.

(** White space of [int()] within the ASCII range. *)
Definition is_blank (a : ascii) : bool :=
  let n := nat_of_ascii a in
  ((9 <=? n) && (n <=? 13) || (n =? 32))%nat.

Fixpoint lstrip (s : string) : string :=
  match s with
  | String a s' => if is_blank a then lstrip s' else s
  | EmptyString => EmptyString
  end.

Fixpoint rstrip (s : string) : string :=
  match s with
  | String a s' =>
      let r := rstrip s' in
      if is_empty r && is_blank a then EmptyString else String a r
  | EmptyString => EmptyString
  end.

Definition strip (s : string) : string := rstrip (lstrip s).

(** [int(s)] on ASCII text: [None] stands for [ValueError]. *)
Definition int_of_ascii (s : string) : option Z :=
  match strip s with
  | String a s' =>
      if Ascii.eqb a "-"%char then option_map Z.opp (digits_from 0 false s')
      else if Ascii.eqb a "+"%char then digits_from 0 false s'
      else digits_from 0 false (String a s')
  | EmptyString => None
  end.

(** ** The imports

    A vocabulary file has a word a line; a tokenizer option file holds the
    name of its vocabulary; a float is read when it is [0.5]; an embedding
    table needs its size; a data set is checked by its existence; NumPy
    takes seeds from 0 to 2^32 - 1. *)
Definition imports : @Externals system := {|
  py_int := int_of_ascii;
  py_float := fun s => if s =? "0.5" then Some 0.5%float else None;
  py_split := split;
  str_other := fun _ => "<object>";
  json_load := fun text => Some (VDict [("vocabulary", VStr (strip text))]);
  Vocab_init := fun (fs : @FS system) file =>
    match file with
    | VStr p =>
        option_map (fun s => {| Vocab_length := Z.of_nat (List.length (readlines s)) |})
                   (fs_read fs p)
    | _ => None
    end;
  Embeddings_init := fun (fs : @FS system) file voc size =>
    match size with
    | VInt n => Some {| Embeddings_dim := n |}
    | _ => None
    end;
  check_dataset_ok := fun (fs : @FS system) file =>
    match file with VStr p => fs_exists fs p | _ => false end;
  tf_seed_ok := fun _ => true;
  np_seed_ok := fun v =>
    match v with VInt n => ((0 <=? n) && (n <? 2 ^ 32))%Z | _ => false end
|}.

(** Training data and two vocabularies, no model directory. *)
Definition fresh : @FS system :=
  [ ("train.txt", File ("a ||| b" ++ nl));
    ("words.src", File ("a" ++ nl ++ "b" ++ nl));
    ("words.tgt", File ("c" ++ nl)) ].

(** A model directory [m] as learning from scratch leaves it, trained for
    three epochs. *)
Definition trained : @FS system :=
  [ ("m/checkpoint", File "");
    ("m/epoch3.index", File "");
    ("m/topology",
     File ("src_voc words.src" ++ nl ++ "src_voc_size 2" ++ nl ++
           "tgt_voc_size 1" ++ nl ++ "aggr lse" ++ nl ++ "mode alignment" ++ nl));
    ("m/vocab_tgt", File ("c" ++ nl));
    ("m/vocab_src", File ("a" ++ nl ++ "b" ++ nl));
    ("m", Dir);
    ("train.txt", File ("a ||| b" ++ nl));
    ("test.txt", File ("a ||| c" ++ nl)) ].

End Example.

(** * Properties *)

(** ** Outcomes and sequencing *)

Section Sequencing_facts.
Context {OS : System}.

Lemma prepend_nil {A} (r : Run A) : prepend [] r = r.
Proof. destruct r; reflexivity. Qed.

Lemma prepend_prepend {A} e1 e2 (r : Run A) :
  prepend e1 (prepend e2 r) = prepend (e1 ++ e2)%list r.
Proof. unfold prepend; simpl. now rewrite app_assoc. Qed.

Lemma bind_returns_l {A B} (m : M A) (f : A -> M B) fs a fs1 e1 :
  returns m fs a fs1 e1 -> bind m f fs = prepend e1 (f a fs1).
Proof. unfold returns, bind; intros ->; reflexivity. Qed.

Lemma bind_pure_l {A B} (m : M A) (f : A -> M B) fs a :
  returns m fs a fs [] -> bind m f fs = f a fs.
Proof. intros H. rewrite (bind_returns_l _ _ _ _ _ _ H). apply prepend_nil. Qed.

Lemma bind_ret_l {A B} (a : A) (f : A -> M B) fs : bind (ret a) f fs = f a fs.
Proof. now apply bind_pure_l. Qed.

Lemma bind_exit_l {A B} (m : M A) (f : A -> M B) fs n fs1 e1 :
  m fs = MkRun (Exit n) fs1 e1 -> bind m f fs = MkRun (Exit n) fs1 e1.
Proof. unfold bind; intros ->; reflexivity. Qed.

Lemma bind_raise_l {A B} (m : M A) (f : A -> M B) fs x fs1 e1 :
  m fs = MkRun (Raise x) fs1 e1 -> bind m f fs = MkRun (Raise x) fs1 e1.
Proof. unfold bind; intros ->; reflexivity. Qed.

Lemma bind_emit {B} e (f : unit -> M B) fs :
  bind (emit e) f fs = prepend [e] (f tt fs).
Proof. reflexivity. Qed.

(** A sequence returns when both parts do. *)
Lemma bind_returns_inv {A B} (m : M A) (f : A -> M B) fs b fs2 ev :
  returns (bind m f) fs b fs2 ev ->
  exists a fs1 e1 e2,
    returns m fs a fs1 e1 /\ returns (f a) fs1 b fs2 e2 /\ ev = (e1 ++ e2)%list.
Proof.
  unfold returns, bind. destruct (m fs) as [o fs1 e1]; simpl.
  destruct o as [a| | |]; try discriminate.
  destruct (f a fs1) as [o2 fs2' e2] eqn:Hf; simpl. intros H; inversion H; subst.
  exists a, fs1, e1, e2. auto.
Qed.

Lemma bind_ext_returns {A B} (m : M A) (f g : A -> M B) fs :
  (forall a fs1 e1, returns m fs a fs1 e1 -> f a fs1 = g a fs1) ->
  bind m f fs = bind m g fs.
Proof.
  unfold returns, bind. intros H. destruct (m fs) as [o fs1 e1]; simpl.
  destruct o; try reflexivity. now rewrite (H a fs1 e1).
Qed.

Lemma outcome_prepend {A} e (r : Run A) : outcome (prepend e r) = outcome r.
Proof. reflexivity. Qed.

Lemma events_prepend {A} e (r : Run A) : events (prepend e r) = (e ++ events r)%list.
Proof. reflexivity. Qed.

Lemma final_fs_prepend {A} e (r : Run A) : final_fs (prepend e r) = final_fs r.
Proof. reflexivity. Qed.

Lemma prepend_returns {A} e (r : Run A) a fs' ev :
  prepend e r = MkRun (Return a) fs' ev ->
  exists e2, r = MkRun (Return a) fs' e2 /\ ev = (e ++ e2)%list.
Proof. destruct r; unfold prepend; simpl. intros H; inversion H; subst. eauto. Qed.

End Sequencing_facts.

(** ** The attribute dictionary *)

Lemma getattr_setattr self k v k' :
  getattr (setattr self k v) k' = if k =? k' then Some v else getattr self k'.
Proof.
  induction self as [|[q w] rest IH]; simpl.
  - destruct (String.eqb_spec k k'); reflexivity.
  - destruct (String.eqb_spec q k) as [->|Hq]; simpl.
    + destruct (String.eqb_spec k k'); reflexivity.
    + destruct (String.eqb_spec q k') as [->|Hq'].
      * destruct (String.eqb_spec k k'); congruence.
      * exact IH.
Qed.

Lemma getattr_setattr_same self k v : getattr (setattr self k v) k = Some v.
Proof. rewrite getattr_setattr. now rewrite String.eqb_refl. Qed.

Lemma getattr_Some_in self k v : getattr self k = Some v -> In k (keys self).
Proof.
  induction self as [|[q w] rest IH]; simpl; [discriminate|].
  destruct (String.eqb_spec q k); auto.
Qed.

Lemma getattr_None_notin self k : getattr self k = None -> ~ In k (keys self).
Proof.
  induction self as [|[q w] rest IH]; simpl; [tauto|].
  destruct (String.eqb_spec q k); [discriminate|]. intros H [?|?]; [congruence|].
  now apply IH.
Qed.

(** Assigning to a known attribute keeps the order of [vars(self)]. *)
Lemma keys_setattr_known self k v :
  getattr self k <> None -> keys (setattr self k v) = keys self.
Proof.
  induction self as [|[q w] rest IH]; simpl; [congruence|].
  destruct (String.eqb_spec q k) as [->|Hq]; simpl; [reflexivity|].
  intros H. now rewrite IH.
Qed.

(** A new attribute goes last. *)
Lemma keys_setattr_new self k v :
  getattr self k = None -> keys (setattr self k v) = (keys self ++ [k])%list.
Proof.
  induction self as [|[q w] rest IH]; simpl; [reflexivity|].
  destruct (String.eqb_spec q k) as [->|Hq]; simpl; [discriminate|].
  intros H. now rewrite IH.
Qed.

Lemma items_by_keys (self : Config) :
  NoDup (keys self) ->
  self = map (fun k => (k, match getattr self k with Some v => v | None => VNone end))
             (keys self).
Proof.
  induction self as [|[q w] rest IH]; simpl; [reflexivity|].
  intros H. inversion H as [|? ? Hnot Hnd]; subst.
  rewrite String.eqb_refl. f_equal.
  rewrite IH at 1 by assumption. apply map_ext_in.
  intros k Hk. destruct (String.eqb_spec q k) as [->|?]; [contradiction|reflexivity].
Qed.

(** ** The option parser *)

Section Parse_facts.
Context {OS : System} {E : Externals}.

Lemma store_as_is self name v rest fs :
  store self name as_is (v :: rest) fs
  = match convert ToStr v with
    | Some x => ret (setattr self name x, rest)
    | None => raise ValueError
    end fs.
Proof. reflexivity. Qed.

Lemma store_to_int self name v rest fs :
  store self name to_int (v :: rest) fs
  = match convert ToInt v with
    | Some x => ret (setattr self name x, rest)
    | None => raise ValueError
    end fs.
Proof.
  unfold store. cbn [pop0]. rewrite bind_ret_l. unfold to_int, convert.
  destruct (py_int v); reflexivity.
Qed.

Lemma store_to_float self name v rest fs :
  store self name to_float (v :: rest) fs
  = match convert ToFloat v with
    | Some x => ret (setattr self name x, rest)
    | None => raise ValueError
    end fs.
Proof.
  unfold store. cbn [pop0]. rewrite bind_ret_l. unfold to_float, convert.
  destruct (py_float v); reflexivity.
Qed.

Ltac eval_tests := cbn [String.eqb Ascii.eqb Bool.eqb andb len].

(** The chain of tests of [parse] reads the table of options. *)
Lemma parse_tok_by_kind self tok argv fs :
  parse_tok self tok argv fs = parse_tok_table self tok argv fs.
Proof.
  unfold parse_tok, parse_tok_table, option_kind.
  repeat (match goal with
          | |- context [String.eqb tok ?s] =>
              destruct (String.eqb_spec tok s) as [->|?]
          end;
          [ destruct argv; eval_tests;
            solve [ reflexivity | apply store_as_is | apply store_to_int
                  | apply store_to_float ]
          | eval_tests ]).
  reflexivity.
Qed.

Lemma unparsed_run {A} self tok fs :
  unparsed (A:=A) self tok fs
  = match getattr self "usage" with
    | Some u =>
        MkRun (Exit 1) fs
          [EvStderr ("error: unparsed " ++ tok ++ " option" ++ nl); EvStderr (str u)]
    | None =>
        MkRun (Raise AttributeError) fs
          [EvStderr ("error: unparsed " ++ tok ++ " option" ++ nl)]
    end.
Proof.
  unfold unparsed, stderr_write, attr, or_raise, bind, emit, sys_exit, raise, ret.
  destruct (getattr self "usage"); reflexivity.
Qed.

Lemma help_run {A} self fs :
  (usage <- attr self "usage" ;; stderr_write (str usage) ;; sys_exit (A:=A) 0) fs
  = match getattr self "usage" with
    | Some u => MkRun (Exit 0) fs [EvStderr (str u)]
    | None => MkRun (Raise AttributeError) fs []
    end.
Proof.
  unfold stderr_write, attr, or_raise, bind, emit, sys_exit, raise, ret.
  destruct (getattr self "usage"); reflexivity.
Qed.

(** A round that returns took one option from the front of [argv], changed
    one attribute and did nothing else. *)
Lemma parse_tok_returns self tok argv fs self' argv' fs' ev :
  returns (parse_tok self tok argv) fs (self', argv') fs' ev ->
  fs' = fs /\ ev = [] /\
  ((exists name conv v x,
      option_kind tok = Valued name conv /\ argv = v :: argv' /\
      convert conv v = Some x /\ self' = setattr self name x)
   \/ (exists name,
      option_kind tok = Flag name /\ argv' = argv /\
      self' = setattr self name (VBool true))).
Proof.
  unfold returns. rewrite parse_tok_by_kind. unfold parse_tok_table.
  destruct (option_kind tok) as [name conv|name| |] eqn:Hk.
  - destruct argv as [|v rest].
    + rewrite unparsed_run. destruct (getattr self "usage"); discriminate.
    + destruct (convert conv v) as [x|] eqn:Hc; [|discriminate].
      intros H; inversion H; subst. repeat split. left. exists name, conv, v, x. auto.
  - intros H; inversion H; subst. repeat split. right. exists name. auto.
  - rewrite help_run. destruct (getattr self "usage"); discriminate.
  - rewrite unparsed_run. destruct (getattr self "usage"); discriminate.
Qed.

Lemma parse_tok_shorter self tok argv fs self' argv' fs' ev :
  returns (parse_tok self tok argv) fs (self', argv') fs' ev ->
  (List.length argv' <= List.length argv)%nat.
Proof.
  intros H. apply parse_tok_returns in H.
  destruct H as (_ & _ & [(? & ? & ? & ? & _ & -> & _) | (? & _ & -> & _)]); simpl; lia.
Qed.

(** The rounds of [parse] do not depend on the fuel, once it covers [argv]. *)
Lemma parse_loop_fuel fuel1 : forall fuel2 self argv fs,
  (List.length argv <= fuel1)%nat -> (List.length argv <= fuel2)%nat ->
  parse_loop fuel1 self argv fs = parse_loop fuel2 self argv fs.
Proof.
  induction fuel1 as [|f1 IH]; intros fuel2 self argv fs H1 H2.
  - destruct argv; [|simpl in H1; lia]. destruct fuel2; reflexivity.
  - destruct argv as [|tok rest]; [destruct fuel2; reflexivity|].
    destruct fuel2 as [|f2]; [simpl in H2; lia|]. simpl in *.
    apply bind_ext_returns. intros [self' argv'] fs1 e1 Hr.
    pose proof (parse_tok_shorter _ _ _ _ _ _ _ _ Hr). apply IH; lia.
Qed.

(** [parse], one round at a time. *)
Lemma parse_nil self fs : parse self [] fs = MkRun (Return self) fs [].
Proof. reflexivity. Qed.

Lemma parse_cons self tok argv fs :
  parse self (tok :: argv) fs
  = (' (self', argv') <- parse_tok self tok argv ;; parse self' argv') fs.
Proof.
  unfold parse. simpl. apply bind_ext_returns. intros [self' argv'] fs1 e1 Hr.
  pose proof (parse_tok_shorter _ _ _ _ _ _ _ _ Hr). apply parse_loop_fuel; lia.
Qed.

Lemma parse_valued self tok name conv v rest fs :
  option_kind tok = Valued name conv ->
  parse self (tok :: v :: rest) fs
  = match convert conv v with
    | Some x => parse (setattr self name x) rest fs
    | None => MkRun (Raise ValueError) fs []
    end.
Proof.
  intros Hk. rewrite parse_cons. unfold bind at 1.
  rewrite parse_tok_by_kind. unfold parse_tok_table. rewrite Hk.
  destruct (convert conv v); [|reflexivity]. simpl.
  destruct (parse _ rest fs); reflexivity.
Qed.

Lemma parse_flag self tok name rest fs :
  option_kind tok = Flag name ->
  parse self (tok :: rest) fs = parse (setattr self name (VBool true)) rest fs.
Proof.
  intros Hk. rewrite parse_cons. unfold bind at 1.
  rewrite parse_tok_by_kind. unfold parse_tok_table. rewrite Hk. simpl.
  destruct (parse _ rest fs); reflexivity.
Qed.

(** [parse] returns exactly along [Parses], and then it has touched neither
    the file system nor the outside. *)
Lemma parse_returns_Parses self argv : forall fs self' fs' ev,
  returns (parse self argv) fs self' fs' ev ->
  Parses self argv self' /\ fs' = fs /\ ev = [].
Proof.
  remember (List.length argv) as n eqn:Hn. revert self argv Hn.
  induction n as [n IH] using lt_wf_ind. intros self argv Hn fs self' fs' ev H.
  unfold returns in H. destruct argv as [|tok argv].
  - rewrite parse_nil in H. inversion H; subst. repeat split. constructor.
  - rewrite parse_cons in H.
    apply bind_returns_inv in H. destruct H as ([s1 a1] & fs1 & e1 & e2 & Ht & Hp & ->).
    pose proof (parse_tok_shorter _ _ _ _ _ _ _ _ Ht) as Hlen.
    apply parse_tok_returns in Ht. destruct Ht as (-> & -> & Hcase).
    apply (IH (List.length a1)) in Hp; [|simpl in Hn; lia|reflexivity].
    destruct Hp as (Hp & -> & ->). repeat split.
    destruct Hcase as [(name & conv & v & x & Hk & -> & Hc & ->) | (name & Hk & -> & ->)].
    + eapply Parses_valued; eauto.
    + eapply Parses_flag; eauto.
Qed.

Lemma Parses_parse self argv self' fs :
  Parses self argv self' -> parse self argv fs = MkRun (Return self') fs [].
Proof.
  induction 1 as [self|self tok name conv v x rest self' Hk Hc _ IH
                 |self tok name rest self' Hk _ IH].
  - reflexivity.
  - rewrite (parse_valued _ _ _ _ _ _ _ Hk), Hc. exact IH.
  - rewrite (parse_flag _ _ _ _ _ Hk). exact IH.
Qed.

Lemma Parses_app self a1 self1 a2 self2 :
  Parses self a1 self1 -> Parses self1 a2 self2 -> Parses self (a1 ++ a2) self2.
Proof.
  induction 1; intros H2; simpl; [assumption| |].
  - eapply Parses_valued; eauto.
  - eapply Parses_flag; eauto.
Qed.

(** Once [parse] returns on [a1], it goes through [a1 ++ a2] as through
    [a1] and then through [a2]. *)
Lemma parse_app self a1 a2 fs self1 fs1 ev1 :
  returns (parse self a1) fs self1 fs1 ev1 ->
  parse self (a1 ++ a2) fs = parse self1 a2 fs.
Proof.
  intros H. apply parse_returns_Parses in H. destruct H as (H & _ & _).
  clear fs1 ev1. induction H as [self|self tok name conv v x rest self' Hk Hc _ IH
                                 |self tok name rest self' Hk _ IH].
  - reflexivity.
  - simpl. rewrite (parse_valued _ _ _ _ _ _ _ Hk), Hc. exact IH.
  - simpl. rewrite (parse_flag _ _ _ _ _ Hk). exact IH.
Qed.

(** [parse] always ends, and never by running out of fuel. *)
Lemma parse_tok_outcome self tok argv fs :
  outcome (parse_tok self tok argv fs) <> OutOfFuel /\
  final_fs (parse_tok self tok argv fs) = fs.
Proof.
  rewrite parse_tok_by_kind. unfold parse_tok_table.
  destruct (option_kind tok).
  - destruct argv; [rewrite unparsed_run; destruct (getattr self "usage"); simpl; split; congruence|].
    destruct (convert conv s); simpl; split; congruence.
  - simpl; split; congruence.
  - rewrite help_run. destruct (getattr self "usage"); simpl; split; congruence.
  - rewrite unparsed_run. destruct (getattr self "usage"); simpl; split; congruence.
Qed.

Lemma parse_outcome self argv : forall fs,
  outcome (parse self argv fs) <> OutOfFuel /\ final_fs (parse self argv fs) = fs.
Proof.
  remember (List.length argv) as n eqn:Hn. revert self argv Hn.
  induction n as [n IH] using lt_wf_ind. intros self argv Hn fs.
  destruct argv as [|tok argv]; [rewrite parse_nil; simpl; split; congruence|].
  rewrite parse_cons. unfold bind.
  destruct (parse_tok_outcome self tok argv fs) as [Ho Hf].
  destruct (parse_tok self tok argv fs) as [o fs1 e1] eqn:Ht; simpl in *.
  destruct o as [[s1 a1]| | |]; simpl; try (split; congruence).
  pose proof (parse_tok_shorter _ _ _ _ _ _ _ _ Ht) as Hlen. subst fs1.
  apply (IH (List.length a1)); [simpl in Hn; lia|reflexivity].
Qed.

(** What the table says of the attribute an option sets. *)
Lemma kind_valued_typed tok name conv :
  option_kind tok = Valued name conv ->
  exists t, ty_of name = Some t /\
            forall v x, convert conv v = Some x -> has_ty t x = true.
Proof.
  unfold option_kind.
  repeat (match goal with
          | |- context [String.eqb tok ?s] => destruct (String.eqb tok s)
          end;
          [ intros H; first
              [ discriminate H
              | inversion H; subst; eexists; split; [reflexivity|];
                intros v x Hc; unfold convert, option_map in Hc;
                try match type of Hc with
                    | match ?o with _ => _ end = _ => destruct o
                    end;
                inversion Hc; reflexivity ]
          | ]);
  discriminate.
Qed.

Lemma kind_flag_typed tok name :
  option_kind tok = Flag name -> ty_of name = Some TBool.
Proof.
  unfold option_kind.
  repeat (match goal with
          | |- context [String.eqb tok ?s] => destruct (String.eqb tok s)
          end;
          [ intros H; first [discriminate H | inversion H; subst; reflexivity] | ]);
  discriminate.
Qed.

Lemma well_typed_setattr self name t x :
  well_typed self -> ty_of name = Some t -> has_ty t x = true ->
  well_typed (setattr self name x).
Proof.
  intros Hw Ht Hx name' t' Ht'. rewrite getattr_setattr.
  destruct (String.eqb_spec name name') as [<-|Hne].
  - exists x. split; [reflexivity|]. congruence.
  - now apply Hw.
Qed.

(** Assigning to an attribute outside the table keeps the table's typing. *)
Lemma well_typed_setattr_other self name x :
  well_typed self -> ty_of name = None -> well_typed (setattr self name x).
Proof.
  intros Hw Ht name' t' Ht'. rewrite getattr_setattr.
  destruct (String.eqb_spec name name') as [<-|Hne]; [congruence|]. now apply Hw.
Qed.

Lemma well_typed_init usage : well_typed (init_attrs usage).
Proof.
  intros name t. unfold ty_of, parsed_types, ty_of_in, init_attrs, getattr.
  repeat (match goal with
          | |- context [String.eqb ?s name] =>
              destruct (String.eqb_spec s name) as [<-|?]
          end;
          [ intros H; inversion H; subst; eexists; split; [reflexivity|reflexivity] | ]).
  discriminate.
Qed.

(** The attributes keep their types through [parse]. *)
Lemma Parses_well_typed self argv self' :
  Parses self argv self' -> well_typed self -> well_typed self'.
Proof.
  induction 1 as [self|self tok name conv v x rest self' Hk Hc _ IH
                 |self tok name rest self' Hk _ IH]; intros Hw; [assumption| |].
  - apply IH. destruct (kind_valued_typed _ _ _ Hk) as (t & Ht & Hx).
    eapply well_typed_setattr; eauto.
  - apply IH. eapply well_typed_setattr; eauto using kind_flag_typed.
Qed.

(** [parse] adds no attribute and keeps the order of [vars(self)]. *)
Lemma Parses_keys self argv self' :
  Parses self argv self' -> well_typed self -> keys self' = keys self.
Proof.
  induction 1 as [self|self tok name conv v x rest self' Hk Hc _ IH
                 |self tok name rest self' Hk _ IH]; intros Hw; [reflexivity| |].
  - destruct (kind_valued_typed _ _ _ Hk) as (t & Ht & Hx).
    rewrite IH by (eapply well_typed_setattr; eauto).
    apply keys_setattr_known. destruct (Hw _ _ Ht) as (w & -> & _). discriminate.
  - pose proof (kind_flag_typed _ _ Hk) as Ht.
    rewrite IH by (eapply well_typed_setattr; eauto).
    apply keys_setattr_known. destruct (Hw _ _ Ht) as (w & -> & _). discriminate.
Qed.

(** [parse] only assigns to attributes of the table, and never to [usage]
    or [last_epoch]. *)
Lemma kind_name_known tok name :
  (exists conv, option_kind tok = Valued name conv) \/ option_kind tok = Flag name ->
  ty_of name <> None /\ name <> "usage" /\ name <> "last_epoch".
Proof.
  unfold option_kind.
  repeat (match goal with
          | |- context [String.eqb tok ?s] => destruct (String.eqb tok s)
          end;
          [ intros [[? H]|H];
            first [discriminate H | inversion H; subst; repeat split; discriminate] | ]).
  intros [[? H]|H]; discriminate.
Qed.

Lemma Parses_unchanged self argv self' k :
  Parses self argv self' ->
  (ty_of k = None \/ k = "usage" \/ k = "last_epoch") ->
  getattr self' k = getattr self k.
Proof.
  induction 1 as [self|self tok name conv v x rest self' Hk Hc _ IH
                 |self tok name rest self' Hk _ IH]; intros Hn; [reflexivity| |].
  - rewrite IH by assumption. rewrite getattr_setattr.
    destruct (String.eqb_spec name k) as [->|]; [|reflexivity].
    destruct (kind_name_known tok k) as (? & ? & ?); [left; eauto|].
    destruct Hn as [?|[?|?]]; contradiction.
  - rewrite IH by assumption. rewrite getattr_setattr.
    destruct (String.eqb_spec name k) as [->|]; [|reflexivity].
    destruct (kind_name_known tok k) as (? & ? & ?); [right; eauto|].
    destruct Hn as [?|[?|?]]; contradiction.
Qed.

(** The attributes after [parse], in closed form. *)
Lemma Parses_assignments self argv self' :
  Parses self argv self' -> self' = assign_all self (assignments argv).
Proof.
  induction 1 as [self|self tok name conv v x rest self' Hk Hc _ IH
                 |self tok name rest self' Hk _ IH]; [reflexivity| |].
  - cbn [assignments]. rewrite Hk, Hc. exact IH.
  - cbn [assignments]. rewrite Hk. exact IH.
Qed.

Lemma getattr_assign_all l : forall self name,
  getattr (assign_all self l) name
  = match last_assigned l name with
    | Some x => Some x
    | None => getattr self name
    end.
Proof.
  induction l as [|[k v] l IH]; intros self name; [reflexivity|].
  cbn [assign_all fold_left last_assigned fst snd]. fold (assign_all (setattr self k v) l).
  rewrite IH. destruct (last_assigned l name); [reflexivity|].
  rewrite getattr_setattr. now destruct (k =? name).
Qed.

Lemma last_assigned_None l name :
  ~ In name (map fst l) -> last_assigned l name = None.
Proof.
  induction l as [|[k v] l IH]; simpl; [reflexivity|]. intros H.
  rewrite IH by tauto. destruct (String.eqb_spec k name); [|reflexivity].
  exfalso. apply H. now left.
Qed.

(** After [parse], an attribute holds the last value [argv] assigned to
    it, and the value it had when [argv] assigned none. *)
Lemma Parses_getattr self argv self' name :
  Parses self argv self' ->
  getattr self' name
  = match last_assigned (assignments argv) name with
    | Some x => Some x
    | None => getattr self name
    end.
Proof. intros H. rewrite (Parses_assignments _ _ _ H). apply getattr_assign_all. Qed.

Lemma Parses_not_assigned self argv self' name :
  Parses self argv self' -> ~ In name (assigned argv) ->
  getattr self' name = getattr self name.
Proof.
  intros H Hn. rewrite (Parses_getattr _ _ _ name H).
  now rewrite last_assigned_None.
Qed.

End Parse_facts.

(** ** What a call that returns has done *)

Section Returning.
Context {OS : System} {E : Externals}.

Lemma ret_returns {A} (a b : A) fs fs' ev :
  returns (ret a) fs b fs' ev -> b = a /\ fs' = fs /\ ev = [].
Proof. unfold returns, ret. intros H; inversion H; auto. Qed.

Lemma emit_returns e fs u fs' ev :
  returns (emit e) fs u fs' ev -> fs' = fs /\ ev = [e].
Proof. unfold returns, emit. intros H; inversion H; auto. Qed.

Lemma raise_returns {A} x fs (a : A) fs' ev : returns (raise x) fs a fs' ev -> False.
Proof. unfold returns, raise. discriminate. Qed.

Lemma sys_exit_returns {A} n fs (a : A) fs' ev : returns (sys_exit n) fs a fs' ev -> False.
Proof. unfold returns, sys_exit. discriminate. Qed.

Lemma or_raise_returns {A} x (o : option A) fs a fs' ev :
  returns (or_raise x o) fs a fs' ev -> o = Some a /\ fs' = fs /\ ev = [].
Proof. unfold returns, or_raise, ret, raise. destruct o; intros H; inversion H; auto. Qed.

Lemma attr_returns self name fs v fs' ev :
  returns (attr self name) fs v fs' ev ->
  getattr self name = Some v /\ fs' = fs /\ ev = [].
Proof. apply or_raise_returns. Qed.

Lemma as_path_returns v fs s fs' ev :
  returns (as_path v) fs s fs' ev -> v = VStr s /\ fs' = fs /\ ev = [].
Proof. unfold returns, as_path, ret, raise. destruct v; intros H; inversion H; auto. Qed.

Lemma add_str_returns v s fs r fs' ev :
  returns (add_str v s) fs r fs' ev ->
  exists t, v = VStr t /\ r = t ++ s /\ fs' = fs /\ ev = [].
Proof. unfold returns, add_str, ret, raise. destruct v; intros H; inversion H; eauto. Qed.

Lemma str_add_returns s v fs r fs' ev :
  returns (str_add s v) fs r fs' ev ->
  exists t, v = VStr t /\ r = s ++ t /\ fs' = fs /\ ev = [].
Proof. unfold returns, str_add, ret, raise. destruct v; intros H; inversion H; eauto. Qed.

Lemma mdir_plus_returns self suffix fs r fs' ev :
  returns (mdir_plus self suffix) fs r fs' ev ->
  exists m, getattr self "mdir" = Some (VStr m) /\ r = m ++ suffix /\ fs' = fs /\ ev = [].
Proof.
  unfold mdir_plus. intros H. apply bind_returns_inv in H.
  destruct H as (v & fs1 & e1 & e2 & Ha & Hs & ->).
  apply attr_returns in Ha. destruct Ha as (Ha & -> & ->).
  apply add_str_returns in Hs. destruct Hs as (t & -> & -> & -> & ->). eauto.
Qed.

Lemma getitem_returns v key fs r fs' ev :
  returns (getitem v key) fs r fs' ev ->
  exists d, v = VDict d /\ getattr d key = Some r /\ fs' = fs /\ ev = [].
Proof.
  unfold getitem. destruct v; try (intros H; now apply raise_returns in H).
  intros H. apply or_raise_returns in H. destruct H as (? & ? & ?). eauto.
Qed.

Lemma path_exists_returns p fs b fs' ev :
  returns (path_exists p) fs b fs' ev -> b = exists_ fs p /\ fs' = fs /\ ev = [].
Proof. unfold returns, path_exists. intros H; inversion H; auto. Qed.

Lemma when_returns c m fs u fs' ev :
  returns (when c m) fs u fs' ev ->
  (c = false /\ fs' = fs /\ ev = []) \/ (c = true /\ returns m fs u fs' ev).
Proof.
  unfold when. destruct c; [auto|]. intros H. apply ret_returns in H. left. tauto.
Qed.

Lemma check_dataset_returns file fs u fs' ev :
  returns (check_dataset file) fs u fs' ev ->
  check_dataset_ok fs file = true /\ fs' = fs /\ ev = [EvCheckDataset file].
Proof.
  unfold returns, check_dataset. rewrite bind_emit. unfold prepend.
  destruct (check_dataset_ok fs file); simpl; intros H; inversion H; auto.
Qed.

Lemma new_Vocab_returns file fs v fs' ev :
  returns (new_Vocab file) fs v fs' ev ->
  exists x, Vocab_init fs file = Some x /\ v = VVocab x /\ fs' = fs /\ ev = [EvVocab file].
Proof.
  unfold returns, new_Vocab. rewrite bind_emit. unfold prepend.
  destruct (Vocab_init fs file); simpl; intros H; inversion H; eauto.
Qed.

Lemma new_Embeddings_returns file voc size fs v fs' ev :
  returns (new_Embeddings file voc size) fs v fs' ev ->
  exists x e, voc = VVocab x /\ Embeddings_init fs file x size = Some e /\
              v = VEmbeddings e /\ fs' = fs /\ ev = [EvEmbeddings file x size].
Proof.
  unfold returns, new_Embeddings. destruct voc; try (unfold raise; discriminate).
  rewrite bind_emit. unfold prepend.
  destruct (Embeddings_init fs file v0 size) eqn:Hi; simpl; intros H; inversion H; subst.
  eexists _, _. repeat split; eauto.
Qed.

Lemma dot_length_returns v fs r fs' ev :
  returns (dot_length v) fs r fs' ev ->
  exists x, v = VVocab x /\ r = VInt (Vocab_length x) /\ fs' = fs /\ ev = [].
Proof. unfold returns, dot_length, ret, raise. destruct v; intros H; inversion H; eauto. Qed.

Lemma dot_dim_returns v fs r fs' ev :
  returns (dot_dim v) fs r fs' ev ->
  exists x, v = VEmbeddings x /\ r = VInt (Embeddings_dim x) /\ fs' = fs /\ ev = [].
Proof. unfold returns, dot_dim, ret, raise. destruct v; intros H; inversion H; eauto. Qed.

Lemma open_read_returns p fs s fs' ev :
  returns (open_read p) fs s fs' ev ->
  read_file fs p = Some s /\ fs' = fs /\ ev = [EvOpenRead p].
Proof.
  unfold returns, open_read. rewrite bind_emit. unfold prepend.
  destruct (read_file fs p); simpl; intros H; inversion H; auto.
Qed.

Lemma open_write_returns p content fs u fs' ev :
  returns (open_write p content) fs u fs' ev ->
  write_file fs p content = Some fs' /\ ev = [EvOpenWrite p].
Proof.
  unfold returns, open_write. rewrite bind_emit. unfold prepend.
  destruct (write_file fs p content); simpl; intros H; inversion H; auto.
Qed.

Lemma makedirs_returns p fs u fs' ev :
  returns (makedirs p) fs u fs' ev ->
  make_dirs fs p = Some fs' /\ ev = [EvMakedirs p].
Proof.
  unfold returns, makedirs. rewrite bind_emit. unfold prepend.
  destruct (make_dirs fs p); simpl; intros H; inversion H; auto.
Qed.

Lemma copyfile_returns src dst fs u fs' ev :
  returns (copyfile src dst) fs u fs' ev ->
  exists s d,
    src = VStr s /\ dst = VStr d /\ copy_file fs s d = Some fs' /\
    ev = [EvCopyfile src dst].
Proof.
  unfold returns, copyfile. rewrite bind_emit. unfold prepend.
  destruct src; simpl; try discriminate. destruct dst; simpl; try discriminate.
  unfold bind, as_path, ret; simpl.
  destruct (copy_file fs s s0) eqn:Hc; simpl; intros H; inversion H; subst.
  exists s, s0. repeat split; auto.
Qed.

Lemma load_json_returns p fs j fs' ev :
  returns (load_json p) fs j fs' ev ->
  exists text, read_file fs p = Some text /\ json_load text = Some j /\
               fs' = fs /\ ev = [EvOpenRead p].
Proof.
  unfold load_json. intros H. apply bind_returns_inv in H.
  destruct H as (text & fs1 & e1 & e2 & Ho & Hj & ->).
  apply open_read_returns in Ho. destruct Ho as (Ho & -> & ->).
  apply or_raise_returns in Hj. destruct Hj as (Hj & -> & ->). eauto.
Qed.

Lemma read_topology_returns p fs argv fs' ev :
  returns (read_topology p) fs argv fs' ev ->
  exists text, read_file fs p = Some text /\
               topology_argv (readlines text) = Some argv /\
               fs' = fs /\ ev = [EvOpenRead p].
Proof.
  unfold read_topology. intros H. apply bind_returns_inv in H.
  destruct H as (text & fs1 & e1 & e2 & Ho & Hj & ->).
  apply open_read_returns in Ho. destruct Ho as (Ho & -> & ->).
  apply or_raise_returns in Hj. destruct Hj as (Hj & -> & ->). eauto.
Qed.

Lemma tf_seed_returns seed fs u fs' ev :
  returns (tf_set_random_seed seed) fs u fs' ev ->
  tf_seed_ok seed = true /\ fs' = fs /\ ev = [EvTfSeed seed].
Proof.
  unfold returns, tf_set_random_seed. rewrite bind_emit. unfold prepend.
  destruct (tf_seed_ok seed); simpl; intros H; inversion H; auto.
Qed.

Lemma np_seed_returns seed fs u fs' ev :
  returns (np_random_seed seed) fs u fs' ev ->
  np_seed_ok seed = true /\ fs' = fs /\ ev = [EvNpSeed seed].
Proof.
  unfold returns, np_random_seed. rewrite bind_emit. unfold prepend.
  destruct (np_seed_ok seed); simpl; intros H; inversion H; auto.
Qed.

(** The scan of the epochs, when it returns: it stopped at the largest
    number whose index file exists, or found none and left [self] as it was. *)
Lemma for_epochs_returns n self name fs self' fs' ev :
  returns (for_epochs n self name) fs self' fs' ev ->
  fs' = fs /\ ev = [] /\
  (n = 0%nat \/ exists m, getattr self "mdir" = Some (VStr m)) /\
  ((exists e, (1 <= e <= n)%nat /\
      (forall m, getattr self "mdir" = Some (VStr m) ->
         exists_ fs (epoch_index m (Z.of_nat e)) = true /\
         forall e', (e < e' <= n)%nat -> exists_ fs (epoch_index m (Z.of_nat e')) = false) /\
      self' = setattr self name (VInt (Z.of_nat e)))
   \/ (self' = self /\
       forall m, getattr self "mdir" = Some (VStr m) ->
       forall e, (1 <= e <= n)%nat -> exists_ fs (epoch_index m (Z.of_nat e)) = false)).
Proof.
  induction n as [|n IH]; simpl; intros H.
  - apply ret_returns in H. destruct H as (-> & -> & ->).
    repeat split; auto. right. split; auto. intros; lia.
  - apply bind_returns_inv in H. destruct H as (p & fs1 & e1 & e2 & Hp & H & ->).
    apply mdir_plus_returns in Hp. destruct Hp as (m & Hm & -> & -> & ->).
    apply bind_returns_inv in H. destruct H as (b & fs1 & e1 & e3 & Hb & H & ->).
    apply path_exists_returns in Hb. destruct Hb as (-> & -> & ->).
    destruct (exists_ fs _) eqn:Hex.
    + apply ret_returns in H. destruct H as (-> & -> & ->).
      repeat split; eauto. left. exists (S n). split; [lia|]. split; [|reflexivity].
      intros m' Hm'. rewrite Hm in Hm'. inversion Hm'; subst m'.
      split; [exact Hex|]. intros; lia.
    + apply IH in H. destruct H as (-> & -> & _ & Hcase). repeat split; eauto.
      destruct Hcase as [(e & He & Hfacts & ->) | (-> & Hnone)].
      * left. exists e. split; [lia|]. split; [|reflexivity].
        intros m' Hm'. destruct (Hfacts m' Hm') as [H1 H2]. split; [assumption|].
        intros e' He'. destruct (Nat.eq_dec e' (S n)) as [->|Hne].
        -- rewrite Hm in Hm'. inversion Hm'; subst m'. exact Hex.
        -- apply H2. lia.
      * right. split; [reflexivity|]. intros m' Hm' e He.
        destruct (Nat.eq_dec e (S n)) as [->|Hne].
        -- rewrite Hm in Hm'. inversion Hm'; subst m'. exact Hex.
        -- apply Hnone; [assumption|lia].
Qed.

End Returning.

(** Going through a call that returned, statement by statement. *)
Ltac inv_ret H :=
  let Heq := fresh "Heq" in
  apply ret_returns in H; destruct H as (Heq & -> & ->);
  try (injection Heq as ? ?); subst.

(** [H : getattr c k = Some v], read through the assignments made to [c]
    and against what is known of [c]. *)
Ltac norm_getattr H :=
  rewrite ?getattr_setattr in H;
  cbn [String.eqb Ascii.eqb Bool.eqb] in H;
  try lazymatch type of H with
      | Some _ = Some _ => injection H as H; try subst
      | getattr ?c ?k = Some _ =>
          match goal with
          | H' : getattr c k = Some _ |- _ =>
              rewrite H' in H; injection H as H; try subst
          end
      end.

Ltac inv_run H :=
  lazymatch type of H with
  | returns (bind _ _) _ _ _ _ =>
      let a := fresh "a" in
      let fs1 := fresh "fs" in
      let e1 := fresh "ev" in
      let e2 := fresh "ev" in
      let H1 := fresh "H" in
      let H2 := fresh "H" in
      apply bind_returns_inv in H;
      destruct H as (a & fs1 & e1 & e2 & H1 & H2 & ->);
      inv_run H1; cbv beta in H2; inv_run H2
  | returns (ret _) _ _ _ _ => inv_ret H
  | returns (emit _) _ _ _ _ =>
      apply emit_returns in H; destruct H as (-> & ->)
  | returns (stderr_write _) _ _ _ _ =>
      apply emit_returns in H; destruct H as (-> & ->)
  | returns (print _) _ _ _ _ =>
      apply emit_returns in H; destruct H as (-> & ->)
  | returns (raise _) _ _ _ _ => apply raise_returns in H; contradiction
  | returns (sys_exit _) _ _ _ _ => apply sys_exit_returns in H; contradiction
  | returns (attr _ _) _ _ _ _ =>
      apply attr_returns in H; destruct H as (H & -> & ->); norm_getattr H
  | returns (or_raise _ _) _ _ _ _ =>
      apply or_raise_returns in H; destruct H as (H & -> & ->)
  | returns (as_path _) _ _ _ _ =>
      apply as_path_returns in H; destruct H as (H & -> & ->); try subst
  | returns (add_str _ _) _ _ _ _ =>
      let t := fresh "t" in
      apply add_str_returns in H; destruct H as (t & H & -> & -> & ->); try subst
  | returns (str_add _ _) _ _ _ _ =>
      let t := fresh "t" in
      apply str_add_returns in H; destruct H as (t & H & -> & -> & ->);
      try (injection H as H); try subst
  | returns (mdir_plus _ _) _ _ _ _ =>
      let m := fresh "m" in
      apply mdir_plus_returns in H; destruct H as (m & H & -> & -> & ->);
      norm_getattr H
  | returns (getitem _ _) _ _ _ _ =>
      let d := fresh "d" in
      let Hd := fresh "Hd" in
      apply getitem_returns in H; destruct H as (d & Hd & H & -> & ->); try subst
  | returns (path_exists _) _ _ _ _ =>
      apply path_exists_returns in H; destruct H as (-> & -> & ->)
  | returns (when _ _) _ _ _ _ =>
      let Hc := fresh "Hc" in
      apply when_returns in H; destruct H as [(Hc & -> & ->) | (Hc & H)];
      [ | inv_run H ]
  | returns (check_dataset _) _ _ _ _ =>
      apply check_dataset_returns in H; destruct H as (H & -> & ->)
  | returns (new_Vocab _) _ _ _ _ =>
      let x := fresh "voc" in
      apply new_Vocab_returns in H; destruct H as (x & H & -> & -> & ->)
  | returns (new_Embeddings _ _ _) _ _ _ _ =>
      let x := fresh "voc" in
      let e := fresh "emb" in
      let Hv := fresh "Hv" in
      apply new_Embeddings_returns in H; destruct H as (x & e & Hv & H & -> & -> & ->);
      try subst
  | returns (dot_length _) _ _ _ _ =>
      let x := fresh "voc" in
      apply dot_length_returns in H; destruct H as (x & H & -> & -> & ->);
      try (injection H as H); try subst
  | returns (dot_dim _) _ _ _ _ =>
      let x := fresh "emb" in
      apply dot_dim_returns in H; destruct H as (x & H & -> & -> & ->);
      try (injection H as H); try subst
  | returns (open_write _ _) _ _ _ _ =>
      apply open_write_returns in H; destruct H as (H & ->)
  | returns (makedirs _) _ _ _ _ =>
      apply makedirs_returns in H; destruct H as (H & ->)
  | returns (copyfile _ _) _ _ _ _ =>
      let s := fresh "s" in
      let d := fresh "d" in
      let Hs := fresh "Hs" in
      let Hd := fresh "Hd" in
      apply copyfile_returns in H; destruct H as (s & d & Hs & Hd & H & ->);
      try (injection Hd as Hd); try subst
  | returns (load_json _) _ _ _ _ =>
      let t := fresh "text" in
      let Hr := fresh "Hr" in
      apply load_json_returns in H; destruct H as (t & Hr & H & -> & ->)
  | returns (read_topology _) _ _ _ _ =>
      let t := fresh "text" in
      let Hr := fresh "Hr" in
      apply read_topology_returns in H; destruct H as (t & Hr & H & -> & ->)
  | returns (tf_set_random_seed _) _ _ _ _ =>
      apply tf_seed_returns in H; destruct H as (H & -> & ->)
  | returns (np_random_seed _) _ _ _ _ =>
      apply np_seed_returns in H; destruct H as (H & -> & ->)
  | returns (parse _ _) _ _ _ _ =>
      apply parse_returns_Parses in H; destruct H as (H & -> & ->)
  | returns (for_epochs _ _ _) _ _ _ _ =>
      let Hm := fresh "Hm" in
      apply for_epochs_returns in H; destruct H as (-> & -> & Hm & H)
  | returns (if ?b then _ else _) _ _ _ _ =>
      first
        [ match goal with
          | Hk : b = _ |- _ => rewrite Hk in H
          end
        | let Hb := fresh "Hb" in destruct b eqn:Hb ];
      inv_run H
  | returns (let '(x, y) := ?p in _) _ _ _ _ =>
      destruct p; inv_run H
  | _ => idtac
  end.

(** ** What a call can emit, however it ends *)

Section Emitting.
Context {OS : System} {E : Externals}.
Variable P : Event -> Prop.

Lemma emits_bind {A B} (m : M A) (f : A -> M B) :
  emits_only P m -> (forall a, emits_only P (f a)) -> emits_only P (bind m f).
Proof.
  intros Hm Hf fs. unfold bind. specialize (Hm fs).
  destruct (m fs) as [o fs1 e1]; simpl in *.
  destruct o; simpl; try assumption. apply Forall_app. split; [assumption|apply Hf].
Qed.

Lemma emits_ret {A} (a : A) : emits_only P (ret a).
Proof. intros fs. constructor. Qed.

Lemma emits_raise {A} x : emits_only P (raise (A:=A) x).
Proof. intros fs. constructor. Qed.

Lemma emits_sys_exit {A} n : emits_only P (sys_exit (A:=A) n).
Proof. intros fs. constructor. Qed.

Lemma emits_emit e : P e -> emits_only P (emit e).
Proof. intros H fs. repeat constructor. exact H. Qed.

Lemma emits_or_raise {A} x (o : option A) : emits_only P (or_raise x o).
Proof. destruct o; [apply emits_ret|apply emits_raise]. Qed.

Lemma emits_attr self name : emits_only P (attr self name).
Proof. apply emits_or_raise. Qed.

Lemma emits_as_path v : emits_only P (as_path v).
Proof. destruct v; first [apply emits_ret|apply emits_raise]. Qed.

Lemma emits_add_str v s : emits_only P (add_str v s).
Proof. destruct v; first [apply emits_ret|apply emits_raise]. Qed.

Lemma emits_str_add s v : emits_only P (str_add s v).
Proof. destruct v; first [apply emits_ret|apply emits_raise]. Qed.

Lemma emits_mdir_plus self suffix : emits_only P (mdir_plus self suffix).
Proof. apply emits_bind; [apply emits_attr|intros; apply emits_add_str]. Qed.

Lemma emits_getitem v key : emits_only P (getitem v key).
Proof. destruct v; first [apply emits_or_raise|apply emits_raise]. Qed.

Lemma emits_path_exists p : emits_only P (path_exists p).
Proof. intros fs. constructor. Qed.

Lemma emits_when c m : emits_only P m -> emits_only P (when c m).
Proof. destruct c; [auto|intros; apply emits_ret]. Qed.

Lemma emits_dot_length v : emits_only P (dot_length v).
Proof. destruct v; first [apply emits_ret|apply emits_raise]. Qed.

Lemma emits_dot_dim v : emits_only P (dot_dim v).
Proof. destruct v; first [apply emits_ret|apply emits_raise]. Qed.

(** A call that emits [e] and then only decides how it ends. *)
Lemma emits_after {A} e (m : M A) :
  P e -> (forall fs, events (m fs) = []) -> emits_only P (emit e ;; m).
Proof.
  intros He Hm fs. rewrite bind_emit. simpl. rewrite Hm. repeat constructor. exact He.
Qed.

Lemma emits_check_dataset file : P (EvCheckDataset file) -> emits_only P (check_dataset file).
Proof.
  intros H. apply emits_after; [assumption|]. intros fs.
  now destruct (check_dataset_ok fs file).
Qed.

Lemma emits_new_Vocab file : P (EvVocab file) -> emits_only P (new_Vocab file).
Proof.
  intros H. apply emits_after; [assumption|]. intros fs.
  now destruct (Vocab_init fs file).
Qed.

Lemma emits_new_Embeddings file voc size :
  (forall v, P (EvEmbeddings file v size)) -> emits_only P (new_Embeddings file voc size).
Proof.
  intros H. destruct voc; try apply emits_raise.
  apply emits_after; [apply H|]. intros fs.
  now destruct (Embeddings_init fs file v size).
Qed.

Lemma emits_open_read p : P (EvOpenRead p) -> emits_only P (open_read p).
Proof.
  intros H. apply emits_after; [assumption|]. intros fs. now destruct (read_file fs p).
Qed.

Lemma emits_open_write p content : P (EvOpenWrite p) -> emits_only P (open_write p content).
Proof.
  intros H. apply emits_after; [assumption|]. intros fs.
  now destruct (write_file fs p content).
Qed.

Lemma emits_makedirs p : P (EvMakedirs p) -> emits_only P (makedirs p).
Proof.
  intros H. apply emits_after; [assumption|]. intros fs.
  now destruct (make_dirs fs p).
Qed.

Lemma emits_copyfile src dst : P (EvCopyfile src dst) -> emits_only P (copyfile src dst).
Proof.
  intros H. unfold copyfile. apply emits_bind; [now apply emits_emit|intros _].
  apply emits_bind; [apply emits_as_path|intros s].
  apply emits_bind; [apply emits_as_path|intros d].
  intros fs. destruct (copy_file fs s d); constructor.
Qed.

Lemma emits_load_json p : P (EvOpenRead p) -> emits_only P (load_json p).
Proof.
  intros H. apply emits_bind; [now apply emits_open_read|intros; apply emits_or_raise].
Qed.

Lemma emits_read_topology p : P (EvOpenRead p) -> emits_only P (read_topology p).
Proof.
  intros H. apply emits_bind; [now apply emits_open_read|intros; apply emits_or_raise].
Qed.

Lemma emits_tf_seed seed : P (EvTfSeed seed) -> emits_only P (tf_set_random_seed seed).
Proof.
  intros H. apply emits_bind; [now apply emits_emit|intros _].
  destruct (tf_seed_ok seed); [apply emits_ret|apply emits_raise].
Qed.

Lemma emits_np_seed seed : P (EvNpSeed seed) -> emits_only P (np_random_seed seed).
Proof.
  intros H. apply emits_bind; [now apply emits_emit|intros _].
  destruct (np_seed_ok seed); [apply emits_ret|apply emits_raise].
Qed.

Lemma emits_for_epochs n self name : emits_only P (for_epochs n self name).
Proof.
  induction n as [|n IH]; simpl; [apply emits_ret|].
  apply emits_bind; [apply emits_mdir_plus|intros p].
  apply emits_bind; [apply emits_path_exists|intros b].
  destruct b; [apply emits_ret|apply IH].
Qed.

(** [parse] writes to the standard error stream only. *)
Lemma emits_parse self argv :
  (forall text, P (EvStderr text)) -> emits_only P (parse self argv).
Proof.
  intros HP. remember (List.length argv) as n eqn:Hn. revert self argv Hn.
  induction n as [n IH] using lt_wf_ind. intros self argv Hn fs.
  destruct argv as [|tok argv]; [constructor|].
  rewrite parse_cons. unfold bind.
  destruct (parse_tok self tok argv fs) as [o fs1 e1] eqn:Ht; simpl.
  assert (He : Forall P e1).
  { rewrite parse_tok_by_kind in Ht. unfold parse_tok_table in Ht.
    destruct (option_kind tok).
    - destruct argv.
      + rewrite unparsed_run in Ht. destruct (getattr self "usage");
          inversion Ht; repeat constructor; apply HP.
      + destruct (convert conv s); inversion Ht; constructor.
    - inversion Ht; constructor.
    - rewrite help_run in Ht. destruct (getattr self "usage");
        inversion Ht; repeat constructor; apply HP.
    - rewrite unparsed_run in Ht. destruct (getattr self "usage");
        inversion Ht; repeat constructor; apply HP. }
  destruct o as [[s1 a1]| | |]; simpl; try assumption.
  apply Forall_app. split; [assumption|].
  pose proof (parse_tok_shorter _ _ _ _ _ _ _ _ Ht) as Hlen.
  apply (IH (List.length a1)); [simpl in Hn; lia|reflexivity].
Qed.

End Emitting.

(** Through a method, one statement at a time; what is left are the
    conditions on the events emitted. *)
Ltac emits_step :=
  lazymatch goal with
  | |- emits_only _ (bind _ _) => apply emits_bind; [|intros ?]
  | |- emits_only _ (ret _) => apply emits_ret
  | |- emits_only _ (raise _) => apply emits_raise
  | |- emits_only _ (sys_exit _) => apply emits_sys_exit
  | |- emits_only _ (emit _) => apply emits_emit
  | |- emits_only _ (stderr_write _) => apply emits_emit
  | |- emits_only _ (print _) => apply emits_emit
  | |- emits_only _ (or_raise _ _) => apply emits_or_raise
  | |- emits_only _ (attr _ _) => apply emits_attr
  | |- emits_only _ (as_path _) => apply emits_as_path
  | |- emits_only _ (add_str _ _) => apply emits_add_str
  | |- emits_only _ (str_add _ _) => apply emits_str_add
  | |- emits_only _ (mdir_plus _ _) => apply emits_mdir_plus
  | |- emits_only _ (getitem _ _) => apply emits_getitem
  | |- emits_only _ (path_exists _) => apply emits_path_exists
  | |- emits_only _ (when _ _) => apply emits_when
  | |- emits_only _ (dot_length _) => apply emits_dot_length
  | |- emits_only _ (dot_dim _) => apply emits_dot_dim
  | |- emits_only _ (check_dataset _) => apply emits_check_dataset
  | |- emits_only _ (new_Vocab _) => apply emits_new_Vocab
  | |- emits_only _ (new_Embeddings _ _ _) => apply emits_new_Embeddings; intros ?
  | |- emits_only _ (open_read _) => apply emits_open_read
  | |- emits_only _ (open_write _ _) => apply emits_open_write
  | |- emits_only _ (makedirs _) => apply emits_makedirs
  | |- emits_only _ (copyfile _ _) => apply emits_copyfile
  | |- emits_only _ (load_json _) => apply emits_load_json
  | |- emits_only _ (read_topology _) => apply emits_read_topology
  | |- emits_only _ (tf_set_random_seed _) => apply emits_tf_seed
  | |- emits_only _ (np_random_seed _) => apply emits_np_seed
  | |- emits_only _ (for_epochs _ _ _) => apply emits_for_epochs
  | |- emits_only _ (parse _ _) => apply emits_parse; intros ?
  | |- emits_only _ (if ?b then _ else _) => destruct b
  | |- emits_only _ (let '(x, y) := ?p in _) => destruct p
  end.

Ltac emits := repeat emits_step.

(** ** Running a call forward *)

Section Forward.
Context {OS : System} {E : Externals}.

Lemma bind_attr {B} self name v (f : Value -> M B) fs :
  getattr self name = Some v -> bind (attr self name) f fs = f v fs.
Proof. intros H. apply bind_pure_l. unfold returns, attr. now rewrite H. Qed.

Lemma bind_mdir_plus {B} self suffix m (f : string -> M B) fs :
  getattr self "mdir" = Some (VStr m) ->
  bind (mdir_plus self suffix) f fs = f (m ++ suffix) fs.
Proof.
  intros H. apply bind_pure_l. unfold returns, mdir_plus. now rewrite (bind_attr _ _ _ _ _ H).
Qed.

Lemma bind_path_exists {B} p (f : bool -> M B) fs :
  bind (path_exists p) f fs = f (exists_ fs p) fs.
Proof. now apply bind_pure_l. Qed.

Lemma bind_as_path {B} s (f : string -> M B) fs : bind (as_path (VStr s)) f fs = f s fs.
Proof. now apply bind_pure_l. Qed.

Lemma bind_str_add {B} s t (f : string -> M B) fs :
  bind (str_add s (VStr t)) f fs = f (s ++ t) fs.
Proof. now apply bind_pure_l. Qed.

Lemma bind_when_false {B} m (f : unit -> M B) fs : bind (when false m) f fs = f tt fs.
Proof. now apply bind_pure_l. Qed.

Lemma bind_check_dataset {B} file (f : unit -> M B) fs :
  check_dataset_ok fs file = true ->
  bind (check_dataset file) f fs = prepend [EvCheckDataset file] (f tt fs).
Proof.
  intros H. apply (bind_returns_l (check_dataset file)).
  unfold returns, check_dataset. rewrite bind_emit. now rewrite H.
Qed.

Lemma bind_tf_seed {B} seed (f : unit -> M B) fs :
  tf_seed_ok seed = true ->
  bind (tf_set_random_seed seed) f fs = prepend [EvTfSeed seed] (f tt fs).
Proof.
  intros H. apply (bind_returns_l (tf_set_random_seed seed)).
  unfold returns, tf_set_random_seed. rewrite bind_emit. now rewrite H.
Qed.

Lemma bind_np_seed {B} seed (f : unit -> M B) fs :
  np_seed_ok seed = true ->
  bind (np_random_seed seed) f fs = prepend [EvNpSeed seed] (f tt fs).
Proof.
  intros H. apply (bind_returns_l (np_random_seed seed)).
  unfold returns, np_random_seed. rewrite bind_emit. now rewrite H.
Qed.

Lemma bind_load_json {B} p text j (f : Value -> M B) fs :
  read_file fs p = Some text -> json_load text = Some j ->
  bind (load_json p) f fs = prepend [EvOpenRead p] (f j fs).
Proof.
  intros Hr Hj. apply (bind_returns_l (load_json p)).
  unfold returns, load_json, open_read, bind, emit, or_raise, ret; simpl.
  rewrite Hr; simpl. now rewrite Hj.
Qed.

Lemma bind_getitem {B} d key v (f : Value -> M B) fs :
  getattr d key = Some v -> bind (getitem (VDict d) key) f fs = f v fs.
Proof. intros H. apply bind_pure_l. unfold returns, getitem. now rewrite H. Qed.

(** Writing a message and leaving. *)
Lemma write_and_exit {A B} text n (f : A -> M B) fs :
  bind (stderr_write text ;; sys_exit n) f fs = MkRun (Exit n) fs [EvStderr text].
Proof. reflexivity. Qed.

Lemma bind_when_exit {B} text n (f : unit -> M B) fs :
  bind (when true (stderr_write text ;; sys_exit n)) f fs
  = MkRun (Exit n) fs [EvStderr text].
Proof. reflexivity. Qed.

(** The scan finds no index file. *)
Lemma for_epochs_none n self name m fs :
  getattr self "mdir" = Some (VStr m) ->
  (forall e, (1 <= e <= n)%nat -> exists_ fs (epoch_index m (Z.of_nat e)) = false) ->
  for_epochs n self name fs = MkRun (Return self) fs [].
Proof.
  intros Hm. induction n as [|n IH]; intros Hnone; [reflexivity|].
  cbn [for_epochs]. rewrite (bind_mdir_plus _ _ _ _ _ Hm), bind_path_exists.
  change (m ++ "/epoch" ++ str_int (Z.of_nat (S n)) ++ ".index")
    with (epoch_index m (Z.of_nat (S n))).
  rewrite Hnone by lia. apply IH. intros; apply Hnone; lia.
Qed.

End Forward.

(** ** The two set-up methods, when they return *)

Ltac solve_getattr :=
  rewrite ?getattr_setattr; cbn [String.eqb Ascii.eqb Bool.eqb];
  first [reflexivity | eassumption].

Ltac reads_before l :=
  lazymatch l with
  | EvMakedirs _ :: _ => constr:(@nil Event)
  | ?x :: ?r => let p := reads_before r in constr:(x :: p)
  end.

Ltac solve_exists :=
  unfold tokenization; cbn [append];
  repeat first
    [ assumption
    | eapply write_file_exists; eassumption
    | eapply make_dirs_exists; eassumption
    | eapply copy_file_exists; eassumption
    | eapply write_file_keeps; [eassumption|]
    | eapply copy_file_keeps; [eassumption|]
    | eapply make_dirs_keeps; [eassumption|] ].

Section Methods.
Context {OS : System} {E : Externals}.

Lemma latest_epoch_of_nat fs m n e :
  (1 <= e <= n)%nat -> (n <= 999)%nat ->
  exists_ fs (epoch_index m (Z.of_nat e)) = true ->
  (forall e', (e < e' <= n)%nat -> exists_ fs (epoch_index m (Z.of_nat e')) = false) ->
  n = 999%nat -> latest_epoch fs m (Z.of_nat e).
Proof.
  intros He Hn Hex Hlater ->. repeat split; try lia; [assumption|].
  intros e' He'. rewrite <- (Z2Nat.id e') by lia. apply Hlater. lia.
Qed.

Lemma no_epoch_of_nat fs m :
  (forall e, (1 <= e <= 999)%nat -> exists_ fs (epoch_index m (Z.of_nat e)) = false) ->
  no_epoch fs m.
Proof. intros H e He. rewrite <- (Z2Nat.id e) by lia. apply H. lia. Qed.

Lemma no_epoch_to_nat fs m :
  no_epoch fs m ->
  forall e, (1 <= e <= 999)%nat -> exists_ fs (epoch_index m (Z.of_nat e)) = false.
Proof. intros H e He. apply H. lia. Qed.

Lemma inference_returns self fs self' fs' ev :
  returns (inference self) fs self' fs' ev ->
  exists m e0 self0 text argv self1 v1 v2,
    getattr self "mdir" = Some (VStr m) /\
    getattr self "epoch" = Some e0 /\
    (fs' = fs \/ exists p, write_file fs p "" = Some fs') /\
    (is_empty m = false -> exists_ fs' m = true) /\
    getattr self0 "mdir" = Some (VStr m) /\
    getattr self0 "dropout" = Some (VFloat 0) /\
    getattr self0 "seq_size" = Some (VInt 0) /\
    (if truthy e0 then getattr self0 "epoch" = Some e0
     else exists e, latest_epoch fs m e /\ getattr self0 "epoch" = Some (VInt e)) /\
    (forall k, ~ In k ["dropout"; "seq_size"; "epoch"; "output"; "tok_src"; "tok_tgt"] ->
               getattr self0 k = getattr self k) /\
    read_file fs' (m ++ "/topology") = Some text /\
    topology_argv (readlines text) = Some argv /\
    Parses self0 argv self1 /\
    self' = setattr (setattr self1 "voc_src" v1) "voc_tgt" v2.
Proof.
  intros H. unfold inference in H. inv_run H.
  all: repeat match goal with
         | H : _ \/ _ |- _ => destruct H
         | H : exists _, _ |- _ => destruct H
         | H : _ /\ _ |- _ => destruct H
         end; try discriminate; subst.
  all: rewrite ?getattr_setattr in *; cbn [String.eqb Ascii.eqb Bool.eqb] in *.
  all: repeat match goal with
         | H1 : getattr ?c ?k = Some ?x, H2 : getattr ?c ?k = Some ?y |- _ =>
             assert (x = y) by congruence; subst; clear H2
         | H : Some _ = Some _ |- _ => injection H as H; subst
         | H : VStr _ = VStr _ |- _ => injection H as H; subst
         end.
  all: try match goal with
         | H1 : negb ?b = true, H2 : negb ?b = false |- _ => rewrite H1 in H2; discriminate
         end.
  all: match goal with
       | Hmd : getattr ?c "mdir" = Some (VStr ?m),
         He : getattr ?c "epoch" = Some ?e0,
         HP : Parses ?s0 ?av ?s1,
         Ht : topology_argv (readlines ?text) = Some ?av |- _ =>
           exists m, e0, s0, text, av, s1; eexists _, _
       end.
  all: repeat match goal with |- _ /\ _ => split end.
  all: try solve [solve_getattr | eassumption | reflexivity].
  all: try solve [left; reflexivity | right; eexists; eassumption].
  all: try (intros k Hk; rewrite ?getattr_setattr;
            repeat match goal with
                   | |- context [String.eqb ?s k] =>
                       destruct (String.eqb_spec s k) as [<-|?];
                       [exfalso; apply Hk; simpl; tauto|]
                   end; reflexivity).
  all: try (intros Hne;
            match goal with
            | H : negb (exists_ ?f (str (VStr ?m) ++ "/epoch" ++ ?r)) = false |- _ =>
                apply negb_false_iff in H;
                apply (exists_below f m ("epoch" ++ r) Hne H)
            end).
  all: match goal with
       | Hb : negb (truthy ?e) = true |- (if truthy ?e then _ else _) =>
           apply negb_true_iff in Hb; rewrite Hb;
           match goal with
           | Hx : forall m, _ -> exists_ _ (epoch_index m (Z.of_nat ?x)) = true /\ _,
             Hmd : getattr _ "mdir" = Some (VStr ?m) |- _ =>
               destruct (Hx m Hmd); exists (Z.of_nat x); split;
               [ eapply latest_epoch_of_nat; eauto | solve_getattr ]
           end
       | Hb : negb (truthy ?e) = false |- (if truthy ?e then _ else _) =>
           apply negb_false_iff in Hb; rewrite Hb; solve_getattr
       end.
Qed.

(** The recorded names and the absence of duplicates, through assignments. *)
Lemma in_keys_setattr self k v k' : In k' (keys self) -> In k' (keys (setattr self k v)).
Proof.
  induction self as [|[q w] rest IH]; simpl; [tauto|].
  destruct (String.eqb_spec q k); simpl; tauto.
Qed.

Lemma in_keys_setattr_inv self k v k' :
  In k' (keys (setattr self k v)) -> k' = k \/ In k' (keys self).
Proof.
  induction self as [|[q w] rest IH]; simpl; [intuition|].
  destruct (String.eqb_spec q k); simpl; intuition.
Qed.

Lemma NoDup_setattr self k v : NoDup (keys self) -> NoDup (keys (setattr self k v)).
Proof.
  induction self as [|[q w] rest IH]; simpl; intros H.
  - repeat constructor. intros [].
  - inversion H as [|? ? Hnot Hnd]; subst.
    destruct (String.eqb_spec q k) as [->|Hq]; simpl; [now constructor|].
    constructor; [|auto]. intros Hin. apply in_keys_setattr_inv in Hin.
    destruct Hin; [congruence|contradiction].
Qed.

Lemma recorded_keys_setattr self k v :
  getattr self k <> None \/ is_recorded k = false ->
  recorded_keys (setattr self k v) = recorded_keys self.
Proof.
  unfold recorded_keys. intros [H|H].
  - now rewrite keys_setattr_known.
  - destruct (getattr self k) eqn:Hg.
    + rewrite keys_setattr_known; congruence.
    + rewrite keys_setattr_new by assumption. rewrite filter_app. simpl.
      rewrite H. apply app_nil_r.
Qed.

Lemma learn_returns self fs self' fs' ev :
  returns (learn self) fs self' fs' ev ->
  exists m trn dev,
    getattr self "mdir" = Some (VStr m) /\
    getattr self "trn" = Some trn /\
    getattr self "dev" = Some dev /\
    check_dataset_ok fs trn = true /\
    (is_none dev = false -> check_dataset_ok fs dev = true) /\
    ((exists_ fs m = true /\ continued self fs m (learn_checks trn dev) self' fs' ev)
     \/ (exists_ fs m = false /\ started self fs m (learn_checks trn dev) self' fs' ev)).
Proof.
  intros H. unfold learn in H. inv_run H.
  all: repeat match goal with
         | H : _ \/ _ |- _ => destruct H
         | H : exists _, _ |- _ => destruct H
         | H : _ /\ _ |- _ => destruct H
         end; try discriminate; subst.
  all: rewrite ?getattr_setattr in *; cbn [String.eqb Ascii.eqb Bool.eqb] in *.
  all: repeat match goal with
         | H1 : getattr ?c ?k = Some ?x, H2 : getattr ?c ?k = Some ?y |- _ =>
             assert (x = y) by congruence; subst; clear H2
         | H : Some _ = Some _ |- _ => injection H as H; subst
         | H : VStr _ = VStr _ |- _ => injection H as H; subst
         | H : VDict _ = VDict _ |- _ => injection H as H; subst
         | H : VVocab _ = VVocab _ |- _ => injection H as H; subst
         | H : VEmbeddings _ = VEmbeddings _ |- _ => injection H as H; subst
         end.
  all: try match goal with
         | H1 : ?b = true, H2 : negb ?b = true |- _ => rewrite H1 in H2; discriminate
         | H1 : ?b = false, H2 : negb ?b = false |- _ => rewrite H1 in H2; discriminate
         | H1 : negb ?b = true, H2 : negb ?b = false |- _ => rewrite H1 in H2; discriminate
         end.
  all: repeat match goal with
         | H : negb _ = true |- _ => apply negb_true_iff in H
         | H : negb _ = false |- _ => apply negb_false_iff in H
         end.
  all: rewrite ?append_assoc in *.
  all: match goal with
       | Hm : getattr ?c "mdir" = Some (VStr ?m), Ht : getattr ?c "trn" = Some ?trn,
         Hd : getattr ?c "dev" = Some ?dev |- exists _ _ _, getattr ?c "mdir" = _ /\ _ =>
           exists m, trn, dev
       end.
  all: split; [assumption|]; split; [assumption|]; split; [assumption|].
  all: split; [assumption|]; split; [first [intros; congruence | intros; assumption]|].
  all: match goal with
       | H : exists_ _ _ = true |- (exists_ _ _ = true /\ _) \/ _ => left; split; [exact H|]
       | H : exists_ _ _ = false |- _ \/ (exists_ _ _ = false /\ _) => right; split; [exact H|]
       end.
  all: cbn [app].
  (* continuation *)
  all: try match goal with
       | HP : Parses ?s0 ?av ?s1, Ht : topology_argv (readlines ?text) = Some ?av,
         Hm1 : getattr ?s1 "mdir" = Some (VStr ?m1),
         Hv1 : Vocab_init _ (VStr (?m1 ++ "/" ++ ?sv)) = Some ?v1,
         Hv2 : Vocab_init _ (VStr (?m1 ++ "/" ++ ?tv)) = Some ?v2
         |- continued _ _ _ _ ?c _ _ =>
           match c with
           | context [setattr (setattr s1 "voc_src" (VVocab v1)) "voc_tgt" (VVocab v2)] =>
               unfold continued;
               split; [reflexivity|]; split; [assumption|]; split; [assumption|];
               exists sv, tv, s0, text, av, s1, (VVocab v1), (VVocab v2), m1; eexists;
               repeat match goal with |- _ /\ _ => split end
           end
       end.
  all: try solve [assumption | reflexivity | solve_getattr].
  all: try solve
         [ unfold resolved_vocab, tokenization; cbn [append];
           repeat match goal with
                  | H : exists_ ?f ?p = _ |- context [exists_ ?f ?p] => rewrite H
                  | H : read_file ?f ?p = _ |- context [read_file ?f ?p] => rewrite H
                  | H : json_load ?t = _ |- context [json_load ?t] => rewrite H
                  | H : getattr ?d "vocabulary" = _ |- context [getattr ?d "vocabulary"] =>
                      rewrite H
                  end; reflexivity ].
  all: try solve
         [ intros k Hk; rewrite ?getattr_setattr;
           repeat match goal with
                  | |- context [String.eqb ?s k] =>
                      destruct (String.eqb_spec s k) as [<-|?];
                      [exfalso; apply Hk; cbn; tauto|]
                  end; reflexivity ].
  all: try solve
         [ match goal with
           | Hx : forall m, getattr ?c "mdir" = _ -> _ /\ _,
             Hm : getattr ?c "mdir" = Some (VStr ?m1) |- _ \/ _ =>
               destruct (Hx m1 Hm); left; eexists; split;
               [ eapply (latest_epoch_of_nat _ _ 999%nat); eauto; lia | reflexivity ]
           | Hx : forall m, getattr ?c "mdir" = _ -> forall e, _ -> _,
             Hm : getattr ?c "mdir" = Some (VStr ?m1) |- _ \/ _ =>
               right; split; [apply no_epoch_of_nat; intros; eapply Hx; eauto | reflexivity]
           end ].
  all: try solve
         [ unfold learn_checks, tokenization_reads, tokenization; cbn [append];
           repeat match goal with
                  | H : exists_ ?f ?p = _ |- context [exists_ ?f ?p] => rewrite H
                  | H : is_none ?v = _ |- context [is_none ?v] => rewrite H
                  end; reflexivity ].
  (* learning from scratch *)
  all: unfold started.
  all: split;
         [ intros k Hk; rewrite ?getattr_setattr;
           repeat match goal with
                  | |- context [String.eqb ?s k] =>
                      destruct (String.eqb_spec s k) as [<-|?];
                      [exfalso; apply Hk; cbn; tauto|]
                  end; reflexivity | ].
  all: split;
         [ intros Hdef;
           repeat (rewrite recorded_keys_setattr;
                   [ | first [ right; reflexivity
                             | left; rewrite ?getattr_setattr;
                               cbn [String.eqb Ascii.eqb Bool.eqb];
                               first [ discriminate
                                     | apply Hdef; [cbn; tauto | reflexivity] ] ] ]);
           reflexivity | ].
  all: split; [ intros Hnd; repeat apply NoDup_setattr; exact Hnd | ].
  all: split; [ eexists _, _, _, _; repeat split; solve_getattr | ].
  all: split; [ eapply write_file_read; eassumption | ].
  all: split; [ solve_exists | ].
  all: split; [ intros p Hp; solve_exists | ].
  all: eexists _, _, _, _.
  all: repeat match goal with |- _ /\ _ => split end.
  all: try match goal with
       | |- side_copies _ _ _ _ =>
           unfold side_copies; cbn [append]; eexists _, _;
           split; [solve_getattr|]; split; [solve_getattr|];
           match goal with
           | H : truthy ?v = _ |- context [truthy ?v] => rewrite H
           end;
           first
             [ reflexivity
             | eexists _, _, _; split; [reflexivity|]; split; [solve_getattr|];
               split; [eassumption|]; reflexivity ]
       end.
  all: try match goal with
       | |- ?lhs = (learn_checks _ _ ++ [EvBranch _] ++ ?r ++ _)%list =>
           match lhs with
           | context [EvBranch "learning from scratch" :: ?rest] =>
               let pre := reads_before rest in unify r pre
           end;
           match lhs with
           | context [EvEmbeddings ?f1 ?v1 ?s1 :: EvEmbeddings ?f2 ?v2 ?s2 :: _] =>
               match goal with
               | |- _ = (_ ++ _ ++ _ ++ _ ++ _ ++ _ ++ ?e ++ _)%list =>
                   unify e [EvEmbeddings f1 v1 s1; EvEmbeddings f2 v2 s2]
               end
           end;
           unfold learn_checks, tokenization; cbn [append];
           repeat match goal with
                  | H : is_none ?v = _ |- context [is_none ?v] => rewrite H
                  end;
           reflexivity
       end.
  all: try solve [repeat constructor].
  all: try solve [cbn [app]; repeat (constructor; [cbv beta iota; solve_exists|]);
                  constructor].
Qed.

End Methods.

(** * The constructor and its methods *)

Section Claims.
Context {OS : System} {E : Externals}.

(** C7. Before [parse] sees a token the attributes hold the defaults of the
    help text, and the constructor parses from them. [parse] goes through
    [argv] from left to right and changes the attributes in place: an option
    that takes a value stores the value it reads in its attribute and goes
    on after the value, a flag stores [True] and goes on after the flag; an
    attribute assigned holds the value and the others keep theirs; when
    [parse] returns, every attribute holds the last value [argv] assigned
    to it or else the value it had, no attribute was added, no file was
    touched and nothing was written; and returning on a prefix, [parse]
    continues on the rest from the attributes it reached. *)
Theorem defaults_then_parse (prog : string) :
  let self := init_attrs (usage_text prog) in
  (getattr self "seq_size" = Some (VInt 50) /\
   getattr self "batch_size" = Some (VInt 32) /\
   getattr self "seed" = Some (VInt 1234) /\
   getattr self "src_lstm_size" = Some (VInt 256) /\
   getattr self "tgt_lstm_size" = Some (VInt 256) /\
   getattr self "lr" = Some (VFloat 1.0) /\
   getattr self "lr_decay" = Some (VFloat 0.9) /\
   getattr self "lr_method" = Some (VStr "adagrad") /\
   getattr self "aggr" = Some (VStr "lse") /\
   getattr self "r" = Some (VFloat 1.0) /\
   getattr self "dropout" = Some (VFloat 0.3) /\
   getattr self "mode" = Some (VStr "alignment") /\
   getattr self "max_sents" = Some (VInt 0) /\
   getattr self "n_epochs" = Some (VInt 1) /\
   getattr self "report_every" = Some (VInt 1000) /\
   getattr self "output" = Some (VStr "-") /\
   Forall (fun name => getattr self name = Some (VBool false))
          ["debug"; "quiet"; "show_matrix"; "show_svg"; "show_last";
           "show_aggr"; "show_align"]) /\
  (exists rest : Config -> M Config, forall argv fs,
     Config_init (prog :: argv) fs = (self' <- parse self argv ;; rest self') fs) /\
  (forall fs, parse self [] fs = MkRun (Return self) fs []) /\
  (forall argv fs self' fs' ev,
     returns (parse self argv) fs self' fs' ev ->
     keys self' = keys self /\ fs' = fs /\ ev = []) /\
  (forall a1 a2 fs self1 fs1 ev1,
     returns (parse self a1) fs self1 fs1 ev1 ->
     parse self (a1 ++ a2) fs = parse self1 a2 fs) /\
  (forall (self0 : Config) tok name conv v rest fs,
     option_kind tok = Valued name conv ->
     parse self0 (tok :: v :: rest) fs
     = match convert conv v with
       | Some x => parse (setattr self0 name x) rest fs
       | None => MkRun (Raise ValueError) fs []
       end) /\
  (forall (self0 : Config) tok name rest fs,
     option_kind tok = Flag name ->
     parse self0 (tok :: rest) fs = parse (setattr self0 name (VBool true)) rest fs) /\
  (forall (self0 : Config) name x other,
     getattr (setattr self0 name x) other
     = if name =? other then Some x else getattr self0 other) /\
  (forall argv fs self' fs' ev name,
     returns (parse self argv) fs self' fs' ev ->
     getattr self' name
     = match last_assigned (assignments argv) name with
       | Some x => Some x
       | None => getattr self name
       end).
Proof.
  intros self.
  split; [|split; [|split; [|split; [|split; [|split; [|split; [|split]]]]]]].
  - repeat split; try reflexivity. repeat constructor.
  - eexists. intros argv fs. unfold Config_init. cbn [pop0].
    rewrite bind_ret_l. reflexivity.
  - intros fs. reflexivity.
  - intros argv fs self' fs' ev H. apply parse_returns_Parses in H.
    destruct H as (H & -> & ->). split; [|split; reflexivity].
    apply (Parses_keys _ _ _ H). apply well_typed_init.
  - intros a1 a2 fs self1 fs1 ev1 H. eapply parse_app; eauto.
  - intros self0 tok name conv v rest fs Hk. now apply parse_valued.
  - intros self0 tok name rest fs Hk. now apply parse_flag.
  - intros self0 name x other. apply getattr_setattr.
  - intros argv fs self' fs' ev name H. apply parse_returns_Parses in H.
    destruct H as (H & _ & _). now apply Parses_getattr.
Qed.

(** C10, as amended. When [parse] reaches an option that takes a value as
    the last token (it returned on what precedes), it writes the "unparsed"
    message and the help text and exits with status 1; when it reaches -h it
    writes the help text and exits with status 0; it never runs out of
    rounds; and when it returns on [pre] it has consumed exactly [pre]. *)
Theorem trailing_option_unparsed self pre opt fs self1 fs1 ev1 usage :
  takes_value opt = true ->
  returns (parse self pre) fs self1 fs1 ev1 ->
  getattr self "usage" = Some usage ->
  parse self (pre ++ [opt]) fs
  = MkRun (Exit 1) fs
      [EvStderr ("error: unparsed " ++ opt ++ " option" ++ nl); EvStderr (str usage)] /\
  (forall rest,
     parse self (pre ++ "-h" :: rest) fs = MkRun (Exit 0) fs [EvStderr (str usage)]) /\
  (forall argv, outcome (parse self argv fs) <> OutOfFuel) /\
  (forall more, parse self (pre ++ more) fs = parse self1 more fs).
Proof.
  intros Hopt Hpre Hu.
  assert (Hu1 : getattr self1 "usage" = Some usage).
  { destruct (parse_returns_Parses _ _ _ _ _ _ Hpre) as (Hp & _ & _).
    rewrite (Parses_unchanged _ _ _ "usage" Hp); auto. }
  split; [|split; [|split]].
  - rewrite (parse_app _ _ _ _ _ _ _ Hpre). rewrite parse_cons.
    unfold bind. rewrite parse_tok_by_kind. unfold parse_tok_table.
    unfold takes_value in Hopt. destruct (option_kind opt); try discriminate.
    rewrite unparsed_run, Hu1. reflexivity.
  - intros rest. rewrite (parse_app _ _ _ _ _ _ _ Hpre). rewrite parse_cons.
    unfold bind. rewrite parse_tok_by_kind. unfold parse_tok_table.
    change (option_kind "-h") with Help. cbv iota. rewrite help_run, Hu1. reflexivity.
  - intros argv. apply parse_outcome.
  - intros more. eapply parse_app; eauto.
Qed.

End Claims.

(** * Instances *)

Section Instances.
Import Example.
#[local] Existing Instance system.
#[local] Existing Instance imports.

Lemma defaults_then_parse_witness :
  parse (init_attrs (usage_text "prog")) (["-seed"; "7"] ++ ["-q"]) fresh
  = parse (setattr (init_attrs (usage_text "prog")) "seed" (VInt 7)) ["-q"] fresh.
Proof.
  apply (proj1 (proj2 (proj2 (proj2 (proj2 (defaults_then_parse "prog"))))))
    with (fs1 := fresh) (ev1 := []).
  reflexivity.
Defined.

Lemma trailing_option_unparsed_witness :
  parse (init_attrs (usage_text "prog")) (["-mdir"; "m"] ++ ["-seed"]) fresh
  = MkRun (Exit 1) fresh
      [EvStderr ("error: unparsed -seed option" ++ nl); EvStderr (usage_text "prog")].
Proof.
  apply (proj1 (trailing_option_unparsed (init_attrs (usage_text "prog"))
                  ["-mdir"; "m"] "-seed" fresh
                  (setattr (init_attrs (usage_text "prog")) "mdir" (VStr "m"))
                  fresh [] (VStr (usage_text "prog"))
                  eq_refl eq_refl eq_refl)).
Defined.

(** C10 as stated fails: the last token is -seed, which takes a value and
    has none, and [parse] returns without a message, having taken it for
    the model directory; after -h, it exits with status 0 before it sees
    the last token. *)
Lemma trailing_option_counterexample :
  takes_value "-seed" = true /\
  parse (init_attrs (usage_text "prog")) ["-mdir"; "-seed"] fresh
  = MkRun (Return (setattr (init_attrs (usage_text "prog")) "mdir" (VStr "-seed")))
          fresh [] /\
  parse (init_attrs (usage_text "prog")) ["-h"; "-seed"] fresh
  = MkRun (Exit 0) fresh [EvStderr (usage_text "prog")].
Proof. repeat split. Qed.

End Instances.
